(** * Block processing of the VM ([lib/runBlock.js])

    A shallow embedding of the block runner: the callback pipeline
    [beforeBlock; processTransactions; payOmmersAndMiner] followed by
    [parseBlockResults] is written with explicit state passing.  The
    closure variables of the source ([gasUsed], [bloom], [receiptTrie],
    [receipts], [txResults], [validReceiptCount] and the block whose
    header is written in generate mode) are the fields of [Ctx]; the
    state manager and the order of the observable effects are the
    fields of [World]. *)

From Stdlib Require Import ZArith NArith Lia.
From Stdlib.Strings Require Import Byte.
From stdpp Require Import base strings list functions.

#[global] Instance byte_eq_dec : EqDecision byte := Byte.byte_eq_dec.

(** ** Buffers, errors and big numbers *)

(** A node [Buffer] is its sequence of bytes. *)
Definition Buffer : Type := list byte.
Definition Address : Type := Buffer.

(** [a.toString('hex') !== b.toString('hex')] compares the bytes. *)
Definition hexDiffers (a b : Buffer) : bool := negb (bool_decide (a = b)).

(** A JavaScript [Error] object, as far as the block runner looks at
    it: its message. *)
Record Error : Type := mkError { message : string }.

(** [Error.prototype.toString], used when an error is concatenated
    with a string. *)
Definition Error_toString (e : Error) : string :=
  if bool_decide (message e = "") then "Error" else "Error: " +:+ message e.

(** [new Error((err || '') + fragment)]. *)
Definition appendError (err : option Error) (fragment : string) : Error :=
  mkError (match err with Some e => Error_toString e | None => "" end +:+ fragment).

Definition byteOfN (n : N) : byte := default x00 (Byte.of_N n).

(** The digit loop of [BN.prototype.toArrayLike] (big-endian branch):
    [b = q.andln(0xff); q.iushrn(8)] until [q] is zero, the digits
    being written from the end of the array. *)
Fixpoint beDigits (steps : nat) (q : N) (acc : Buffer) : Buffer :=
  match steps with
  | O => acc
  | S steps' =>
      if (q =? 0)%N then acc
      else beDigits steps' (N.shiftr q 8) (byteOfN (N.land q 255) :: acc)
  end.

Definition byteLength (n : N) : nat := N.to_nat ((N.size n + 7) / 8).

(** [bn.toArrayLike(Buffer)]: [Math.max(1, byteLength)] bytes, leading
    zeros first. *)
Definition toArrayLike (n : N) : Buffer :=
  let reqLength := Nat.max 1 (byteLength n) in
  replicate (reqLength - byteLength n) x00 ++ beDigits (byteLength n) n [].

(** The number a big-endian byte sequence stands for. *)
Definition fromBigEndian (b : Buffer) : N :=
  fold_left (fun acc d => (acc * 256 + Byte.to_N d)%N) b 0%N.

(** ** Blooms *)

Module Bloom.
(** Modelled from the spec: lib/bloom.js is not among the sources.  The
    log bloom is a fixed-width bit-vector, here the 2048-bit number
    its bytes spell; a new bloom is all zero and [or] accumulates
    another bloom into it by bitwise OR. *)
Record t : Type := mk { bitvector : N }.
Definition new : t := mk 0.
Definition or_ (self other : t) : t :=
  mk (N.lor (bitvector self) (bitvector other)).
End Bloom.

(** ** Blocks, transactions and executor results *)

Module Header.
(** The header fields the block runner reads or writes, numbers
    already decoded from their buffers ([new BN(buf)],
    [ethUtil.bufferToInt]). *)
Record t : Type := mk {
  number : N;
  gasLimit : N;
  gasUsed : N;
  stateRoot : Buffer;
  receiptTrie : Buffer;
  bloom : N;
  coinbase : Address
}.
Definition set_bloom (h : t) (b : N) : t :=
  mk (number h) (gasLimit h) (gasUsed h) (stateRoot h) (receiptTrie h) b (coinbase h).
Definition set_stateRoot (h : t) (r : Buffer) : t :=
  mk (number h) (gasLimit h) (gasUsed h) r (receiptTrie h) (bloom h) (coinbase h).
End Header.

Module Tx.
(** A transaction: its declared gas limit, and the fields only the
    executor consumes. *)
Record t : Type := mk { gasLimit : N; payload : Buffer }.
End Tx.

Module Block.
Record t : Type := mk {
  header : Header.t;
  transactions : list Tx.t;
  uncleHeaders : list Header.t
}.
Definition set_header (b : t) (h : Header.t) : t :=
  mk h (transactions b) (uncleHeaders b).
End Block.

(** A log entry: address, topics, data. *)
Definition Log : Type := (Buffer * list Buffer * Buffer)%type.

Module Vm.
(** [result.vm]: the [exception] field (the source comments that it
    is 0 when an exception occurs and 1 when it doesn't) and the
    logs, which may be missing. *)
Record t : Type := mk { exception : Z; logs : option (list Log) }.
End Vm.

Module TxResult.
(** The result the executor hands over for a transaction.  [gasUsed]
    is a [BN]; the executor reports an amount of gas, which is not
    negative, so it is a natural number here. *)
Record t : Type := mk { gasUsed : N; bloom : Bloom.t; vm : Vm.t }.
End TxResult.

(** What can sit in [txResults]: whatever the executor passed as the
    second argument of its callback. *)
Inductive JsVal : Type :=
| JsUndefined
| JsErr (e : Error)
| JsResult (r : TxResult.t).

(** The executor's callback [(err, result)].  Without an error the
    result is a transaction result (the runner reads its fields); with
    an error the second argument is any value. *)
Inductive RunTxReturn : Type :=
| RunTxOk (result : TxResult.t)
| RunTxErr (err : Error) (result : JsVal).

(** [rawTxReceipt], the array [[status, gasUsed, bitvector, logs]]. *)
Definition RawTxReceipt : Type := (Z * Buffer * N * list Log)%type.

Module Receipt.
Record t : Type := mk {
  status : Z;
  gasUsed : Buffer;
  bitvector : N;
  logs : list Log
}.
End Receipt.

Record BlockResult : Type := mkBlockResult {
  res_receipts : list (option Receipt.t);
  res_results : list JsVal;
  res_error : option Error
}.

(** ** The state manager *)

Module Account.
Record t : Type := mk {
  nonce : N;
  balance : Z;
  stateRoot : Buffer;
  codeHash : Buffer
}.
Definition set_balance (a : t) (b : Z) : t :=
  mk (nonce a) b (stateRoot a) (codeHash a).
End Account.

Module Store.
(** Modelled from the spec: lib/stateManager.js is not among the sources.
    The state store holds a mutable root pointer and the accounts
    that [getAccount] reads and [putAccount] writes. *)
Record t : Type := mk { root : Buffer; accounts : Address -> Account.t }.
Definition set_root (s : t) (r : Buffer) : t := mk r (accounts s).
Definition set_account (s : t) (a : Address) (acc : Account.t) : t :=
  mk (root s) (<[a := acc]> (accounts s)).
End Store.

Module StateManager.
(** Modelled from the spec: the checkpoint interface of the state store.
    [checkpoint] takes a marker, [revert] undoes every mutation since
    the last marker, [commit] keeps the mutations and drops the
    marker. *)
Record t : Type := mk { now : Store.t; checkpoints : list Store.t }.
Definition checkpoint (m : t) : t := mk (now m) (now m :: checkpoints m).
Definition revert (m : t) : t :=
  match checkpoints m with
  | saved :: rest => mk saved rest
  | [] => m
  end.
Definition commit (m : t) : t := mk (now m) (tail (checkpoints m)).
Definition set_now (m : t) (s : Store.t) : t := mk s (checkpoints m).
End StateManager.

(** What an asynchronous step does with the callback it is handed:
    it calls it, with an error or without, or it never does. *)
Inductive Completion : Type :=
| Called (err : option Error)
| NotCalled.

(** What the caller's callback is invoked with, if it is. *)
Inductive CallbackArgs : Type :=
| CbNotCalled
| CbError (err : Error)
| CbResult (err : option Error) (result : BlockResult).

(** The observable steps of an invocation, in the order they happen. *)
Inductive Event : Type :=
| EvSetRoot (r : Buffer)
| EvCheckpoint
| EvBeforeBlock (b : Block.t)
| EvRunTx (tx : Tx.t)
| EvRevert
| EvCommit
| EvFlush
| EvClear
| EvAfterBlock (r : BlockResult)
| EvCallback (args : CallbackArgs).

Record World : Type := mkWorld {
  stateManager : StateManager.t;
  trace : list Event
}.

Definition log (w : World) (e : Event) : World :=
  mkWorld (stateManager w) (trace w ++ [e]).
Definition store (w : World) : Store.t := StateManager.now (stateManager w).
Definition set_store (w : World) (s : Store.t) : World :=
  mkWorld (StateManager.set_now (stateManager w) s) (trace w).
Definition on_stateManager (f : StateManager.t -> StateManager.t) (w : World) : World :=
  mkWorld (f (stateManager w)) (trace w).

(** The VM instance [self] and the libraries the runner calls: the
    collaborators whose code is outside the block runner. *)
Record VM : Type := mkVM {
  (** [self.runTx({tx, block}, cb)] *)
  runTx : Tx.t -> Block.t -> Store.t -> Store.t * RunTxReturn;
  (** [self.emit('beforeBlock', block, cb)] *)
  emitBeforeBlock : Block.t -> Store.t -> Store.t * Completion;
  (** [self.emit('afterBlock', result, cb)] *)
  emitAfterBlock : BlockResult -> Store.t -> Store.t * Completion;
  (** [self._common.param('pow', 'minerReward')] *)
  minerReward : Z;
  (** store faults of [getAccount] and [putAccount] *)
  getAccountError : Address -> Store.t -> option Error;
  putAccountError : Address -> Account.t -> Store.t -> option Error;
  (** the error [trie.commit] hands to its callback *)
  commitError : Store.t -> option Error;
  (** [cache.flush] and [cache.clear] *)
  cacheFlush : Store.t -> Store.t;
  cacheClear : Store.t -> Store.t;
  (** [rlp.encode] of the receipt counter and of a raw receipt *)
  rlpIndex : nat -> Buffer;
  rlpReceipt : RawTxReceipt -> Buffer;
  (** the root of a receipt trie after the given [put]s, if it has one *)
  trieRoot : list (Buffer * Buffer) -> option Buffer
}.

(** ** The closure variables of an invocation *)

Record Ctx : Type := mkCtx {
  block : Block.t;
  gasUsed : N;
  bloom : Bloom.t;
  receiptTrie : list (Buffer * Buffer);
  receipts : list (option Receipt.t);
  txResults : list JsVal;
  validReceiptCount : nat
}.

Definition initCtx (b : Block.t) : Ctx :=
  mkCtx b 0 Bloom.new [] [] [] 0.

Definition header (c : Ctx) : Header.t := Block.header (block c).

(** [async.eachSeries] and [async.series]: one step after the other.
    The next step starts when the current one calls back without an
    error; the final callback gets the first error, and is not called
    when a step never calls back. *)
Fixpoint eachSeries {S A : Type} (iteratee : A -> S -> S * Completion)
    (coll : list A) (s : S) : S * Completion :=
  match coll with
  | [] => (s, Called None)
  | x :: rest =>
      match iteratee x s with
      | (s', Called None) => eachSeries iteratee rest s'
      | (s', stop) => (s', stop)
      end
  end.

Definition series {S : Type} (tasks : list (S -> S * Completion)) (s : S)
    : S * Completion :=
  eachSeries (fun task => task) tasks s.

(** [async.each].  The iteratees are started in the order of the
    collection; the store operations of the model complete when they
    are called, so each iteratee is done before the next one starts.
    The final callback gets the first error, and the model stops
    there. *)
Definition each {S A : Type} (iteratee : A -> S -> S * Completion)
    (coll : list A) (s : S) : S * Completion :=
  eachSeries iteratee coll s.

Definition truthy (v : Z) : bool := negb (v =? 0)%Z.

Module Opts.
(** [opts]: [block] may be missing, [generate] is read through [!!],
    [root] may be missing. *)
Record t : Type := mk {
  block : option Block.t;
  generate : bool;
  root : option Buffer
}.
End Opts.

(** How the function is called: with the callback in the place of
    [opts] and nothing else, or with [opts] and a callback. *)
Inductive Args : Type :=
| ArgsCallbackOnly
| ArgsOpts (opts : Opts.t).

Section RunBlock.

Variable self : VM.
Variable generateStateRoot : bool.

Definition validateStateRoot : bool := negb generateStateRoot.

Definition State : Type := (Ctx * World)%type.

Definition beforeBlock (st : State) : State * Completion :=
  let '(c, w) := st in
  let '(s', done) := emitBeforeBlock self (block c) (store w) in
  ((c, log (set_store w s') (EvBeforeBlock (block c))), done).

(** ** processTransactions *)

Definition parseTxResult (ret : RunTxReturn) (c : Ctx) : Ctx * Completion :=
  match ret with
  | RunTxErr err result =>
      (mkCtx (block c) (gasUsed c) (bloom c) (receiptTrie c)
             (receipts c ++ [None]) (txResults c ++ [result])
             (validReceiptCount c),
       Called (Some err))
  | RunTxOk result =>
      let gasUsed' := (gasUsed c + TxResult.gasUsed result)%N in
      let bloom' := Bloom.or_ (bloom c) (TxResult.bloom result) in
      let block' :=
        if generateStateRoot
        then Block.set_header (block c)
               (Header.set_bloom (header c) (Bloom.bitvector bloom'))
        else block c in
      let txLogs := default [] (Vm.logs (TxResult.vm result)) in
      let rawTxReceipt : RawTxReceipt :=
        (if truthy (Vm.exception (TxResult.vm result)) then 1%Z else 0%Z,
         toArrayLike gasUsed',
         Bloom.bitvector (TxResult.bloom result),
         txLogs) in
      let txReceipt :=
        match rawTxReceipt with
        | (status, gas, bits, logs) => Receipt.mk status gas bits logs
        end in
      (mkCtx block' gasUsed' bloom'
             (receiptTrie c ++
                [(rlpIndex self (validReceiptCount c), rlpReceipt self rawTxReceipt)])
             (receipts c ++ [Some txReceipt])
             (txResults c ++ [JsResult result])
             (S (validReceiptCount c)),
       Called None)
  end.

Definition gasLimitError : Error :=
  mkError "tx has a higher gas limit than the block".

Definition processTx (tx : Tx.t) (st : State) : State * Completion :=
  let '(c, w) := st in
  let gasLimitIsHigherThanBlock :=
    (Header.gasLimit (header c) <? Tx.gasLimit tx + gasUsed c)%N in
  if gasLimitIsHigherThanBlock then (st, Called (Some gasLimitError))
  else
    let '(s', ret) := runTx self tx (block c) (store w) in
    let w' := log (set_store w s') (EvRunTx tx) in
    let '(c', done) := parseTxResult ret c in
    ((c', w'), done).

Definition processTransactions (st : State) : State * Completion :=
  eachSeries processTx (Block.transactions (block (fst st))) st.

(** ** payOmmersAndMiner *)

Definition rewardAccount (address : Address) (reward : Z) (st : State)
    : State * Completion :=
  let '(c, w) := st in
  match getAccountError self address (store w) with
  | Some err => (st, Called (Some err))
  | None =>
      let account := Store.accounts (store w) address in
      let account' :=
        Account.set_balance account (Account.balance account + reward)%Z in
      match putAccountError self address account' (store w) with
      | Some err => (st, Called (Some err))
      | None =>
          ((c, set_store w (Store.set_account (store w) address account')),
           Called None)
      end
  end.

(** The reward of one ommer, as the iteratee of [rewardOmmers]
    calculates it; [divn] truncates. *)
Definition ommerReward (blockNumber ommerNumber : N) : Z :=
  let heightDiff := (Z.of_N blockNumber - Z.of_N ommerNumber)%Z in
  let reward := ((8 - heightDiff) * (minerReward self ÷ 8))%Z in
  if (reward <? 0)%Z then 0%Z else reward.

Definition rewardOmmers (st : State) : State * Completion :=
  each (fun ommer st' =>
          rewardAccount (Header.coinbase ommer)
            (ommerReward (Header.number (header (fst st'))) (Header.number ommer))
            st')
       (Block.uncleHeaders (block (fst st))) st.

(** The reward of the miner, as [rewardMiner] calculates it. *)
Definition minerTotalReward (ommers : list Header.t) : Z :=
  let niblingReward := (minerReward self ÷ 32)%Z in
  let totalNiblingReward := (niblingReward * Z.of_nat (length ommers))%Z in
  (minerReward self + totalNiblingReward)%Z.

Definition rewardMiner (st : State) : State * Completion :=
  rewardAccount (Header.coinbase (header (fst st)))
    (minerTotalReward (Block.uncleHeaders (block (fst st)))) st.

Definition payOmmersAndMiner (st : State) : State * Completion :=
  series [rewardOmmers; rewardMiner] st.

(** ** parseBlockResults *)

(** The conditions of the four checks of validation mode.
    [receiptTrie.root && ...]: the first one needs the receipt trie to
    have a root. *)
Definition receiptTrieMismatch (c : Ctx) : bool :=
  match trieRoot self (receiptTrie c) with
  | Some r => hexDiffers r (Header.receiptTrie (header c))
  | None => false
  end.
Definition bloomMismatch (c : Ctx) : bool :=
  negb (Bloom.bitvector (bloom c) =? Header.bloom (header c))%N.
(** [ethUtil.bufferToInt(block.header.gasUsed) !== Number(gasUsed)].
    [bufferToInt] gives the declared number exactly (it throws beyond 53
    bits), and [Number] of the accumulator is exact below 2^53 and at
    least 2^53 above, so the test is the one of the two numbers. *)
Definition gasUsedMismatch (c : Ctx) : bool :=
  negb (Header.gasUsed (header c) =? gasUsed c)%N.
Definition stateRootMismatch (c : Ctx) (s : Store.t) : bool :=
  hexDiffers (Store.root s) (Header.stateRoot (header c)).

(** The four checks, each one its own [if] assigning [err]. *)
Definition checkCommitments (c : Ctx) (s : Store.t) (err : option Error)
    : option Error :=
  let err1 :=
    if receiptTrieMismatch c
    then Some (appendError err "invalid receiptTrie ") else err in
  let err2 :=
    if bloomMismatch c
    then Some (appendError err1 "invalid bloom ") else err1 in
  let err3 :=
    if gasUsedMismatch c
    then Some (appendError err2 "invalid gasUsed ") else err2 in
  let err4 :=
    if stateRootMismatch c s
    then Some (appendError err3 "invalid block stateRoot ") else err3 in
  err4.

Definition afterBlock (result : BlockResult) (w : World) : World * Completion :=
  let '(s', done) := emitAfterBlock self result (store w) in
  (log (set_store w s') (EvAfterBlock result), done).

(** The success branch of [parseBlockResults] up to the result: the
    state root stamped into the header in generate mode, the commit
    and the error it hands to its callback, the flush, the checks of
    validation mode, the clearing of the cache. *)
Definition commitBlock (st : State) : State * option Error :=
  let '(c, w) := st in
  let block' :=
    if generateStateRoot
    then Block.set_header (block c)
           (Header.set_stateRoot (header c) (Store.root (store w)))
    else block c in
  let c' := mkCtx block' (gasUsed c) (bloom c) (receiptTrie c)
                  (receipts c) (txResults c) (validReceiptCount c) in
  let w1 := log (on_stateManager StateManager.commit w) EvCommit in
  let err := commitError self (store w1) in
  let w2 := log (set_store w1 (cacheFlush self (store w1))) EvFlush in
  let err' :=
    if validateStateRoot then checkCommitments c' (store w2) err else err in
  let w3 := log (set_store w2 (cacheClear self (store w2))) EvClear in
  ((c', w3), err').

Definition parseBlockResults (err : option Error) (st : State)
    : State * CallbackArgs :=
  match err with
  | Some e =>
      let '(c, w) := st in
      let w1 := log (on_stateManager StateManager.revert w) EvRevert in
      ((c, log w1 (EvCallback (CbError e))), CbError e)
  | None =>
      let '((c', w3), err') := commitBlock st in
      let result := mkBlockResult (receipts c') (txResults c') err' in
      let '(w4, done) := afterBlock result w3 in
      match done with
      | Called _ =>
          ((c', log w4 (EvCallback (CbResult err' result))), CbResult err' result)
      | NotCalled => ((c', w4), CbNotCalled)
      end
  end.

(** [async.series([beforeBlock, processTransactions,
    payOmmersAndMiner], parseBlockResults)], up to its final
    callback. *)
Definition pipeline (st : State) : State * Completion :=
  series [beforeBlock; processTransactions; payOmmersAndMiner] st.

Definition openCheckpoint (w : World) : World :=
  log (on_stateManager StateManager.checkpoint w) EvCheckpoint.

(** What runs once the options are parsed: the checkpoint, the
    pipeline and [parseBlockResults]. *)
Definition runPipeline (st : State) : State * CallbackArgs :=
  let '(c, w) := st in
  match pipeline (c, openCheckpoint w) with
  | (st', Called err) => parseBlockResults err st'
  | (st', NotCalled) => (st', CbNotCalled)
  end.

End RunBlock.

(** ** The exported function *)

Definition optsError : Error := mkError "invalid input, opts must be provided".
Definition blockError : Error := mkError "invalid input, block must be provided".

(** [if (opts.root) self.stateManager.trie.root = opts.root] *)
Definition overrideRoot (root : option Buffer) (w : World) : World :=
  match root with
  | Some r => log (set_store w (Store.set_root (store w) r)) (EvSetRoot r)
  | None => w
  end.

(** The closure variables at the end of the invocation (when a block
    was given), the world, and what the callback was called with. *)
Definition runBlock (self : VM) (args : Args) (w : World)
    : (option Ctx * World) * CallbackArgs :=
  match args with
  | ArgsCallbackOnly =>
      ((None, log w (EvCallback (CbError optsError))), CbError optsError)
  | ArgsOpts opts =>
      match Opts.block opts with
      | None =>
          ((None, log w (EvCallback (CbError blockError))), CbError blockError)
      | Some b =>
          let generateStateRoot := Opts.generate opts in
          let w1 := overrideRoot (Opts.root opts) w in
          let '((c, w'), args') :=
            runPipeline self generateStateRoot (initCtx b, w1) in
          ((Some c, w'), args')
      end
  end.

(** ** Reading the sequences of an invocation *)

Definition reportedGas (v : JsVal) : N :=
  match v with JsResult r => TxResult.gasUsed r | _ => 0%N end.

(** The sum of the gas the executor reported in the given results. *)
Definition cumulativeGas (results : list JsVal) : N :=
  fold_left (fun acc v => (acc + reportedGas v)%N) results 0%N.

Definition receiptBits (r : option Receipt.t) : N :=
  match r with Some x => Receipt.bitvector x | None => 0%N end.

(** The OR of the blooms recorded in the given receipts. *)
Definition aggregateBloom (rs : list (option Receipt.t)) : N :=
  fold_left (fun acc r => N.lor acc (receiptBits r)) rs 0%N.

(** The receipts of the transactions that succeeded. *)
Definition successful (rs : list (option Receipt.t)) : list Receipt.t :=
  omap id rs.

Definition isResult (v : JsVal) : Prop := exists r, v = JsResult r.

(** The context after [k] transactions went through the executor
    without an error, and none with one. *)
Definition AfterSuccesses (k : nat) (c : Ctx) : Prop :=
  length (txResults c) = k /\
  Forall isResult (txResults c) /\
  gasUsed c = cumulativeGas (txResults c) /\
  length (receipts c) = k /\
  Forall is_Some (receipts c) /\
  validReceiptCount c = k /\
  length (receiptTrie c) = k.

(** What holds of the context at every point of an invocation on
    block [b]: only the bloom of the header is ever written by the
    transaction loop, and only in generate mode. *)
Definition BloomInvariant (generate : bool) (b : Block.t) (c : Ctx) : Prop :=
  Bloom.bitvector (bloom c) = aggregateBloom (receipts c) /\
  validReceiptCount c = length (successful (receipts c)) /\
  block c =
    (if generate && (0 <? validReceiptCount c)%nat
     then Block.set_header b
            (Header.set_bloom (Block.header b) (Bloom.bitvector (bloom c)))
     else b).

(** The admission check of [processTx]. *)
Definition rejects (tx : Tx.t) (c : Ctx) : bool :=
  (Header.gasLimit (header c) <? Tx.gasLimit tx + gasUsed c)%N.

(** The fragments of the checks that fail, in the order of the
    checks. *)
Definition failingFragments (self : VM) (c : Ctx) (s : Store.t) : list string :=
  (if receiptTrieMismatch self c then ["invalid receiptTrie "] else []) ++
  (if bloomMismatch c then ["invalid bloom "] else []) ++
  (if gasUsedMismatch c then ["invalid gasUsed "] else []) ++
  (if stateRootMismatch c s then ["invalid block stateRoot "] else []).

(** The events of the three stages of the pipeline. *)
Definition stageEvent (ev : Event) : bool :=
  match ev with
  | EvBeforeBlock _ | EvRunTx _ => true
  | _ => false
  end.


(** What holds of the state at every point of the pipeline started in
    world [w0] on block [b]: the stages leave the checkpoints alone and
    add only their own events to the trace. *)
Definition PipelineInvariant (generate : bool) (b : Block.t) (w0 : World)
    (st : Ctx * World) : Prop :=
  BloomInvariant generate b (fst st) /\
  StateManager.checkpoints (stateManager (snd st))
  = StateManager.checkpoints (stateManager w0) /\
  exists extra : list Event,
    trace (snd st) = trace w0 ++ extra /\
    Forall (fun ev => stageEvent ev = true) extra.



Definition balanceOf (w : World) (a : Address) : Z :=
  Account.balance (Store.accounts (store w) a).

(** The error after the given fragments were appended, one
    [new Error((err || '') + fragment)] after the other. *)
Definition combineErrors (fragments : list string) (err : option Error)
    : option Error :=
  fold_left (fun e f => Some (appendError e f)) fragments err.


(** ** Reading an invocation further *)


(** The events that resolve the checkpoint. *)
Definition isRevert (ev : Event) : bool :=
  match ev with EvRevert => true | _ => false end.
Definition isCommit (ev : Event) : bool :=
  match ev with EvCommit => true | _ => false end.

(** The event of the root override, when there is one. *)
Definition rootEvents (root : option Buffer) : list Event :=
  match root with Some r => [EvSetRoot r] | None => [] end.

(** The number the gas bytes of a receipt spell. *)
Definition decodeGas (r : Receipt.t) : N := fromBigEndian (Receipt.gasUsed r).

(** An executor that never reports more gas than the transaction
    declared as its limit. *)
Definition NoOvercharge (self : VM) : Prop :=
  forall tx blk s s' r,
    runTx self tx blk s = (s', RunTxOk r) ->
    (TxResult.gasUsed r <= Tx.gasLimit tx)%N.

(** The addresses a block rewards. *)
Definition coinbases (b : Block.t) : list Address :=
  Header.coinbase (Block.header b) :: map Header.coinbase (Block.uncleHeaders b).

(** The bits of [x] are bits of [y]. *)
Definition bitsWithin (x y : N) : Prop := N.land x y = x.

(** The sequences and the receipt trie go together: a receipt for
    every result, a trie entry for every receipt that is not null, put
    under the RLP of 0, 1, 2, ... in this order. *)
Definition Aligned (self : VM) (c : Ctx) : Prop :=
  length (receipts c) = length (txResults c) /\
  validReceiptCount c = length (successful (receipts c)) /\
  length (receiptTrie c) = validReceiptCount c /\
  map fst (receiptTrie c) = map (rlpIndex self) (seq 0 (validReceiptCount c)).

(** The gas bytes of every receipt spell the gas reported up to and
    including its transaction. *)
Definition GasRecorded (c : Ctx) : Prop :=
  gasUsed c = cumulativeGas (txResults c) /\
  length (receipts c) = length (txResults c) /\
  forall (i : nat) (r : Receipt.t),
    receipts c !! i = Some (Some r) ->
    decodeGas r = cumulativeGas (take (Datatypes.S i) (txResults c)).

(** Store [s'] is store [s] with some balances of the addresses in
    [targets] raised: the root pointer is the same, no balance is
    lower, no other field of any account differs, and the accounts of
    the other addresses are the same. *)
Definition OnlyCredits (targets : list Address) (s s' : Store.t) : Prop :=
  Store.root s' = Store.root s /\
  forall a : Address,
    Account.nonce (Store.accounts s' a) = Account.nonce (Store.accounts s a) /\
    Account.stateRoot (Store.accounts s' a) = Account.stateRoot (Store.accounts s a) /\
    Account.codeHash (Store.accounts s' a) = Account.codeHash (Store.accounts s a) /\
    (Account.balance (Store.accounts s a) <= Account.balance (Store.accounts s' a))%Z /\
    (~ In a targets -> Store.accounts s' a = Store.accounts s a).

(** ** Instances used to run the model *)

Module Example.
Definition blankAccount : Account.t := Account.mk 0 0 [] [].
Definition store0 : Store.t := Store.mk [x01] (fun _ => blankAccount).
Definition world0 : World := mkWorld (StateManager.mk store0 []) [].

Definition okResult (b : byte) : TxResult.t :=
  TxResult.mk 21000 (Bloom.mk (Byte.to_N b)) (Vm.mk 1 None).

Definition boom : Error := mkError "boom".

(** An executor that fails on a transaction without payload, handing
    its callback the error and nothing else, and otherwise uses 21000
    gas, sets the bloom to the first payload byte and moves the
    root. *)
Definition executor (tx : Tx.t) (blk : Block.t) (s : Store.t)
    : Store.t * RunTxReturn :=
  match Tx.payload tx with
  | [] => (s, RunTxErr boom JsUndefined)
  | b :: _ => (Store.set_root s (b :: Store.root s), RunTxOk (okResult b))
  end.

Definition quietHook {A : Type} (_ : A) (s : Store.t) : Store.t * Completion :=
  (s, Called None).

Definition vmWith (before : Block.t -> Store.t -> Store.t * Completion)
    (reward : Z) : VM :=
  mkVM executor before quietHook reward
       (fun _ _ => None) (fun _ _ _ => None) (fun _ => None)
       (fun s => s) (fun s => s)
       (fun n => [byteOfN (N.of_nat n)])
       (fun r => match r with (_, gas, _, _) => gas end)
       (fun puts => Some (flat_map fst puts)).

Definition vm : VM := vmWith quietHook 5000000000000000000.

Definition miner : Address := [xaa].
Definition uncleMiner : Address := [xbb].
Definition hdr : Header.t := Header.mk 10 100000 42000 [x02; x01] [] 3 miner.
Definition uncle : Header.t := Header.mk 9 0 0 [] [] 0 uncleMiner.
Definition tx1 : Tx.t := Tx.mk 30000 [x01].
Definition tx2 : Tx.t := Tx.mk 30000 [x02].
Definition txFailing : Tx.t := Tx.mk 30000 [].
Definition txGreedy : Tx.t := Tx.mk 90000 [x04].

Definition blockOk : Block.t := Block.mk hdr [tx1; tx2] [uncle].
Definition blockFailing : Block.t := Block.mk hdr [tx1; txFailing; tx2] [].
Definition blockGreedy : Block.t := Block.mk hdr [tx1; txGreedy; tx2] [].
End Example.

Module Example2.
(** An executor that uses half of the gas limit of the transaction. *)
Definition thrifty (tx : Tx.t) (blk : Block.t) (s : Store.t)
    : Store.t * RunTxReturn :=
  (s, RunTxOk (TxResult.mk (Tx.gasLimit tx / 2) (Bloom.mk 4) (Vm.mk 1 None))).

Definition hangingHook {A : Type} (_ : A) (s : Store.t) : Store.t * Completion :=
  (s, NotCalled).

Definition vmThrifty : VM :=
  mkVM thrifty Example.quietHook Example.quietHook 5000000000000000000
       (fun _ _ => None) (fun _ _ _ => None) (fun _ => None)
       (fun s => s) (fun s => s)
       (fun n => [byteOfN (N.of_nat n)])
       (fun r => match r with (_, gas, _, _) => gas end)
       (fun puts => None).

Definition vmHanging : VM :=
  mkVM Example.executor hangingHook Example.quietHook 5000000000000000000
       (fun _ _ => None) (fun _ _ _ => None) (fun _ => None)
       (fun s => s) (fun s => s)
       (fun n => [byteOfN (N.of_nat n)])
       (fun r => match r with (_, gas, _, _) => gas end)
       (fun puts => None).

(** A store that fails to write the account of the miner. *)
Definition vmBrokenStore : VM :=
  mkVM Example.executor Example.quietHook Example.quietHook 5000000000000000000
       (fun _ _ => None)
       (fun a _ _ => if bool_decide (a = Example.miner)
                     then Some Example.boom else None)
       (fun _ => None)
       (fun s => s) (fun s => s)
       (fun n => [byteOfN (N.of_nat n)])
       (fun r => match r with (_, gas, _, _) => gas end)
       (fun puts => None).

(** A header that declares what [Example.blockOk] computes on
    [Example.world0] with [vmThrifty]: 30000 gas, the bloom 4, the
    root 01. *)
Definition hdrValid : Header.t :=
  Header.mk 10 100000 30000 [x01] [] 4 Example.miner.
Definition blockValid : Block.t :=
  Block.mk hdrValid [Example.tx1; Example.tx2] [Example.uncle].
End Example2.

(** * Properties *)

(** ** Big-endian bytes *)

Lemma fromBigEndian_from (l : Buffer) (a : N) :
  fold_left (fun acc d => (acc * 256 + Byte.to_N d)%N) l a
  = (a * 256 ^ N.of_nat (length l) + fromBigEndian l)%N.
Proof.
  unfold fromBigEndian. revert a.
  induction l as [|d l IH]; intros a; simpl fold_left.
  - simpl. lia.
  - rewrite IH, (IH (0 * 256 + Byte.to_N d)%N).
    replace (N.of_nat (length (d :: l))) with (N.succ (N.of_nat (length l)))
      by (simpl length; lia).
    rewrite N.pow_succ_r'. lia.
Qed.

Lemma fromBigEndian_cons (d : byte) (l : Buffer) :
  fromBigEndian (d :: l)
  = (Byte.to_N d * 256 ^ N.of_nat (length l) + fromBigEndian l)%N.
Proof.
  unfold fromBigEndian at 1. simpl fold_left.
  rewrite fromBigEndian_from. reflexivity.
Qed.

Lemma to_N_byteOfN (n : N) : (n < 256)%N -> Byte.to_N (byteOfN n) = n.
Proof.
  intros Hn. unfold byteOfN.
  destruct (Byte.of_N n) as [b|] eqn:E.
  - simpl. by apply Byte.to_of_N.
  - apply Byte.of_N_None_iff in E. lia.
Qed.

Lemma low_byte (q : N) : N.land q 255 = (q mod 256)%N.
Proof. change 255%N with (N.ones 8). rewrite N.land_ones. reflexivity. Qed.

Lemma beDigits_value (steps : nat) : forall (q : N) (acc : Buffer),
  (q < 256 ^ N.of_nat steps)%N ->
  fromBigEndian (beDigits steps q acc)
  = (q * 256 ^ N.of_nat (length acc) + fromBigEndian acc)%N.
Proof.
  induction steps as [|steps IH]; intros q acc Hq.
  - simpl in *. assert (q = 0%N) by lia. subst. lia.
  - simpl beDigits. destruct (N.eqb_spec q 0) as [->|Hne]; [lia|].
    rewrite IH.
    + rewrite fromBigEndian_cons, to_N_byteOfN, low_byte, N.shiftr_div_pow2.
      * replace (N.of_nat (length (byteOfN (q mod 256) :: acc)))
          with (N.succ (N.of_nat (length acc))) by (simpl length; lia).
        rewrite N.pow_succ_r'. change (2 ^ 8)%N with 256%N.
        pose proof (N.div_mod q 256). lia.
      * rewrite low_byte. apply N.mod_lt. lia.
    + rewrite N.shiftr_div_pow2. change (2 ^ 8)%N with 256%N.
      replace (N.of_nat (S steps)) with (N.succ (N.of_nat steps)) in Hq by lia.
      rewrite N.pow_succ_r' in Hq.
      apply N.Div0.div_lt_upper_bound. lia.
Qed.

Lemma byteLength_bound (n : N) : (n < 256 ^ N.of_nat (byteLength n))%N.
Proof.
  unfold byteLength. rewrite N2Nat.id.
  eapply N.lt_le_trans; [apply N.size_gt|].
  change 256%N with (2 ^ 8)%N. rewrite <- N.pow_mul_r.
  apply N.pow_le_mono_r; [lia|].
  pose proof (N.div_mod (N.size n + 7) 8).
  pose proof (N.mod_lt (N.size n + 7) 8). lia.
Qed.

Lemma fromBigEndian_zeros (k : nat) (l : Buffer) :
  fromBigEndian (replicate k x00 ++ l) = fromBigEndian l.
Proof.
  induction k as [|k IH]; [reflexivity|].
  simpl. unfold fromBigEndian in *. simpl. exact IH.
Qed.

(** The bytes of [toArrayLike] spell the number back, most significant
    byte first. *)
Lemma fromBigEndian_toArrayLike (n : N) : fromBigEndian (toArrayLike n) = n.
Proof.
  unfold toArrayLike. rewrite fromBigEndian_zeros, beDigits_value.
  - simpl. unfold fromBigEndian. simpl. lia.
  - apply byteLength_bound.
Qed.

(** ** Sequencing *)

Section Sequencing.
Context {S A : Type} (f : A -> S -> S * Completion).

Lemma eachSeries_cons (x : A) (rest : list A) (s : S) :
  eachSeries f (x :: rest) s =
    match f x s with
    | (s', Called None) => eachSeries f rest s'
    | (s', stop) => (s', stop)
    end.
Proof. reflexivity. Qed.

Lemma eachSeries_app_ok (l1 l2 : list A) (s s1 : S) :
  eachSeries f l1 s = (s1, Called None) ->
  eachSeries f (l1 ++ l2) s = eachSeries f l2 s1.
Proof.
  revert s. induction l1 as [|x l1 IH]; intros s H; simpl in *.
  - by inversion H.
  - destruct (f x s) as [s' [[e|]|]]; try discriminate; auto.
Qed.

Lemma eachSeries_app_stop (l1 l2 : list A) (s s1 : S) (d : Completion) :
  eachSeries f l1 s = (s1, d) -> d <> Called None ->
  eachSeries f (l1 ++ l2) s = (s1, d).
Proof.
  revert s. induction l1 as [|x l1 IH]; intros s H Hd; simpl in *.
  - inversion H; subst. congruence.
  - destruct (f x s) as [s' [[e|]|]]; auto.
Qed.

Lemma eachSeries_stop_here (x : A) (rest : list A) (s s' : S) (d : Completion) :
  f x s = (s', d) -> d <> Called None -> eachSeries f (x :: rest) s = (s', d).
Proof.
  intros H Hd. simpl. rewrite H. destruct d as [[e|]|]; congruence.
Qed.

Lemma eachSeries_prefix (l1 l2 : list A) (s s2 : S) :
  eachSeries f (l1 ++ l2) s = (s2, Called None) ->
  exists s1, eachSeries f l1 s = (s1, Called None).
Proof.
  revert s. induction l1 as [|x l1 IH]; intros s H; simpl in *.
  - eauto.
  - destruct (f x s) as [s' [[e|]|]]; try discriminate; eauto.
Qed.
End Sequencing.

(** ** The transaction loop *)

Lemma cumulativeGas_snoc (l : list JsVal) (v : JsVal) :
  cumulativeGas (l ++ [v]) = (cumulativeGas l + reportedGas v)%N.
Proof. unfold cumulativeGas. by rewrite fold_left_app. Qed.

Lemma aggregateBloom_snoc (l : list (option Receipt.t)) (r : option Receipt.t) :
  aggregateBloom (l ++ [r]) = N.lor (aggregateBloom l) (receiptBits r).
Proof. unfold aggregateBloom. by rewrite fold_left_app. Qed.

Section Loop.
Variable self : VM.
Variable generate : bool.

Lemma processTx_rejected (tx : Tx.t) (c : Ctx) (w : World) :
  rejects tx c = true ->
  processTx self generate tx (c, w) = ((c, w), Called (Some gasLimitError)).
Proof. unfold rejects, processTx. by intros ->. Qed.

Lemma processTx_admitted (tx : Tx.t) (c : Ctx) (w : World)
    (s' : Store.t) (ret : RunTxReturn) :
  rejects tx c = false ->
  runTx self tx (block c) (store w) = (s', ret) ->
  processTx self generate tx (c, w)
  = ((fst (parseTxResult self generate ret c),
      log (set_store w s') (EvRunTx tx)),
     snd (parseTxResult self generate ret c)).
Proof.
  unfold rejects, processTx. intros -> ->.
  by destruct (parseTxResult self generate ret c).
Qed.

Lemma parseTxResult_ok_done (r : TxResult.t) (c : Ctx) :
  snd (parseTxResult self generate (RunTxOk r) c) = Called None.
Proof. reflexivity. Qed.

Lemma parseTxResult_err_done (e : Error) (v : JsVal) (c : Ctx) :
  snd (parseTxResult self generate (RunTxErr e v) c) = Called (Some e).
Proof. reflexivity. Qed.

(** A transaction that ends without an error went through the
    executor, which gave a result. *)
Lemma processTx_ok_inv (tx : Tx.t) (c c' : Ctx) (w w' : World) :
  processTx self generate tx (c, w) = ((c', w'), Called None) ->
  exists s' r,
    rejects tx c = false /\
    runTx self tx (block c) (store w) = (s', RunTxOk r) /\
    c' = fst (parseTxResult self generate (RunTxOk r) c) /\
    w' = log (set_store w s') (EvRunTx tx).
Proof.
  intros H. destruct (rejects tx c) eqn:Hrej.
  - rewrite processTx_rejected in H by done. discriminate.
  - destruct (runTx self tx (block c) (store w)) as [s' ret] eqn:Hrun.
    rewrite (processTx_admitted _ _ _ _ _ Hrej Hrun) in H.
    destruct ret as [r|e v]; [|discriminate].
    inversion H; subst. eauto 10.
Qed.

Lemma AfterSuccesses_step (k : nat) (c : Ctx) (r : TxResult.t) :
  AfterSuccesses k c ->
  AfterSuccesses (Datatypes.S k) (fst (parseTxResult self generate (RunTxOk r) c)).
Proof.
  intros (Hlen & Hres & Hgas & Hrl & Hrs & Hcnt & Htl).
  unfold AfterSuccesses. simpl.
  rewrite !length_app, cumulativeGas_snoc. simpl.
  split; [lia|]. split.
  { apply Forall_app; split; [done|]. constructor; [by eexists|constructor]. }
  split; [by rewrite Hgas|]. split; [lia|]. split.
  { apply Forall_app; split; [done|]. constructor; [by eexists|constructor]. }
  split; lia.
Qed.

Lemma AfterSuccesses_init (b : Block.t) : AfterSuccesses 0 (initCtx b).
Proof. unfold AfterSuccesses. simpl. repeat split; constructor. Qed.

(** A run of transactions that all succeed: the invariant advances by
    their number, the executor was invoked once per transaction, in
    order, and the checkpoints were left alone. *)
Lemma loop_success (txs : list Tx.t) : forall (k : nat) (c0 c : Ctx) (w0 w : World),
  AfterSuccesses k c0 ->
  eachSeries (processTx self generate) txs (c0, w0) = ((c, w), Called None) ->
  AfterSuccesses (k + length txs) c /\
  trace w = trace w0 ++ map EvRunTx txs /\
  StateManager.checkpoints (stateManager w)
  = StateManager.checkpoints (stateManager w0).
Proof.
  induction txs as [|tx txs IH]; intros k c0 c w0 w Hinv H.
  - simpl in H. inversion H; subst. rewrite Nat.add_0_r, app_nil_r. auto.
  - rewrite eachSeries_cons in H.
    destruct (processTx self generate tx (c0, w0)) as [[c1 w1] [[e|]|]] eqn:Hstep;
      try discriminate.
    apply processTx_ok_inv in Hstep as (s' & r & _ & _ & -> & ->).
    eapply IH in H; [|by apply AfterSuccesses_step].
    destruct H as (Hk & Htr & Hcp). split; [|split].
    + simpl length. by replace (k + Datatypes.S (length txs))
        with (Datatypes.S k + length txs) by lia.
    + rewrite Htr. simpl. by rewrite <- app_assoc.
    + by rewrite Hcp.
Qed.

Lemma BloomInvariant_init (b : Block.t) : BloomInvariant generate b (initCtx b).
Proof. unfold BloomInvariant. simpl. by rewrite andb_false_r. Qed.

Lemma successful_snoc (l : list (option Receipt.t)) (r : option Receipt.t) :
  length (successful (l ++ [r]))
  = (length (successful l) + match r with Some _ => 1 | None => 0 end)%nat.
Proof.
  unfold successful. rewrite omap_app, length_app. by destruct r.
Qed.

Lemma BloomInvariant_parse (b : Block.t) (ret : RunTxReturn) (c : Ctx) :
  BloomInvariant generate b c ->
  BloomInvariant generate b (fst (parseTxResult self generate ret c)).
Proof.
  intros (Hagg & Hcnt & Hblk). unfold BloomInvariant.
  destruct ret as [r|e v]; simpl.
  - rewrite aggregateBloom_snoc, successful_snoc. simpl. rewrite <- Hagg.
    split; [done|]. split; [lia|].
    destruct generate; simpl; [|done].
    unfold header. rewrite Hblk. simpl.
    destruct (0 <? validReceiptCount c)%nat; by destruct b.
  - rewrite aggregateBloom_snoc, successful_snoc. simpl.
    rewrite N.lor_0_r. split; [done|]. split; [lia|done].
Qed.

Lemma BloomInvariant_processTx (b : Block.t) (tx : Tx.t) (c : Ctx) (w : World) :
  BloomInvariant generate b c ->
  BloomInvariant generate b (fst (fst (processTx self generate tx (c, w)))).
Proof.
  intros Hinv. destruct (rejects tx c) eqn:Hrej.
  - by rewrite processTx_rejected.
  - destruct (runTx self tx (block c) (store w)) as [s' ret] eqn:Hrun.
    rewrite (processTx_admitted _ _ _ _ _ Hrej Hrun). simpl.
    by apply BloomInvariant_parse.
Qed.

Lemma BloomInvariant_loop (b : Block.t) (txs : list Tx.t) : forall (st : Ctx * World),
  BloomInvariant generate b (fst st) ->
  BloomInvariant generate b
    (fst (fst (eachSeries (processTx self generate) txs st))).
Proof.
  induction txs as [|tx txs IH]; intros [c w] Hinv; [done|].
  rewrite eachSeries_cons.
  pose proof (BloomInvariant_processTx b tx c w Hinv) as Hstep.
  destruct (processTx self generate tx (c, w)) as [st1 [[e|]|]]; simpl in *;
    auto.
Qed.
End Loop.

Section LoopFacts.
Variable self : VM.
Variable generate : bool.

Lemma eachSeries_single_fst {S A : Type} (f : A -> S -> S * Completion)
    (x : A) (s : S) :
  fst (eachSeries f [x] s) = fst (f x s).
Proof. simpl. by destruct (f x s) as [s' [[e|]|]]. Qed.

Lemma gasUsed_parse (ret : RunTxReturn) (c : Ctx) :
  gasUsed (fst (parseTxResult self generate ret c))
  = match ret with
    | RunTxOk r => (gasUsed c + TxResult.gasUsed r)%N
    | RunTxErr _ _ => gasUsed c
    end.
Proof. by destruct ret. Qed.

Lemma gasUsed_step (tx : Tx.t) (st : Ctx * World) :
  (gasUsed (fst st) <= gasUsed (fst (fst (processTx self generate tx st))))%N.
Proof.
  destruct st as [c w]. destruct (rejects tx c) eqn:Hrej.
  - rewrite processTx_rejected by done. simpl. lia.
  - destruct (runTx self tx (block c) (store w)) as [s' ret] eqn:Hrun.
    rewrite (processTx_admitted _ _ _ _ _ _ _ Hrej Hrun). simpl.
    rewrite gasUsed_parse. destruct ret; lia.
Qed.

Lemma gasUsed_prefix (l : list Tx.t) (tx : Tx.t) (st : Ctx * World) :
  (gasUsed (fst (fst (eachSeries (processTx self generate) l st)))
   <= gasUsed (fst (fst (eachSeries (processTx self generate) (l ++ [tx]) st))))%N.
Proof.
  destruct (eachSeries (processTx self generate) l st) as [s1 d] eqn:Hl.
  destruct d as [[e|]|].
  - rewrite (eachSeries_app_stop _ _ _ _ _ _ Hl) by discriminate. simpl. lia.
  - rewrite (eachSeries_app_ok _ _ _ _ _ Hl), eachSeries_single_fst.
    apply gasUsed_step.
  - rewrite (eachSeries_app_stop _ _ _ _ _ _ Hl) by discriminate. simpl. lia.
Qed.

Lemma BloomInvariant_gasLimit (b : Block.t) (c : Ctx) :
  BloomInvariant generate b c ->
  Header.gasLimit (header c) = Header.gasLimit (Block.header b).
Proof.
  intros (_ & _ & Hblk). unfold header. rewrite Hblk.
  by destruct (generate && (0 <? validReceiptCount c)%nat).
Qed.

Lemma log_changes_world (w w' : World) (ev : Event) : log w' ev = w ->
  length (trace w) = Datatypes.S (length (trace w')).
Proof. intros <-. simpl. rewrite length_app. simpl. lia. Qed.

Lemma executor_run_is_seen (tx : Tx.t) (w : World) (s' : Store.t) :
  log (set_store w s') (EvRunTx tx) <> w.
Proof. intros H. apply log_changes_world in H. simpl in H. lia. Qed.

(** The state after a prefix of the block's transactions succeeded. *)
Lemma after_prefix (b : Block.t) (w0 : World) (pre : list Tx.t)
    (c : Ctx) (w : World) :
  eachSeries (processTx self generate) pre (initCtx b, w0) = ((c, w), Called None) ->
  AfterSuccesses (length pre) c /\
  BloomInvariant generate b c /\
  trace w = trace w0 ++ map EvRunTx pre /\
  StateManager.checkpoints (stateManager w)
  = StateManager.checkpoints (stateManager w0).
Proof.
  intros H.
  pose proof (loop_success self generate pre 0 (initCtx b) c w0 w
                (AfterSuccesses_init b) H) as (Hk & Htr & Hcp).
  pose proof (BloomInvariant_loop self generate b pre (initCtx b, w0)
                (BloomInvariant_init generate b)) as Hinv.
  rewrite H in Hinv. simpl in *. auto.
Qed.
End LoopFacts.

(** C3: the cumulative gas accumulator starts at zero; every
    transaction leaves it at least as large as it found it, a successful
    one adding the gas the executor reported, so that after the
    transactions 0..i-1 it is the sum of their reported gas; and
    transaction i is rejected with the gas-limit error, without the
    executor being invoked, exactly when its declared gas limit plus
    that sum exceeds the gas limit declared in the block header. *)
Theorem C3_gas_accumulator (self : VM) (generate : bool) (b : Block.t)
    (w0 : World) (pre : list Tx.t) (tx : Tx.t) (c : Ctx) (w : World) :
  eachSeries (processTx self generate) pre (initCtx b, w0) = ((c, w), Called None) ->
  gasUsed (initCtx b) = 0%N /\
  (forall (l : list Tx.t) (tx' : Tx.t) (st : Ctx * World),
     (gasUsed (fst (fst (eachSeries (processTx self generate) l st)))
      <= gasUsed (fst (fst (eachSeries (processTx self generate) (l ++ [tx']) st))))%N) /\
  (forall (r : TxResult.t) (c0 : Ctx),
     gasUsed (fst (parseTxResult self generate (RunTxOk r) c0))
     = (gasUsed c0 + TxResult.gasUsed r)%N) /\
  length (txResults c) = length pre /\
  Forall isResult (txResults c) /\
  gasUsed c = cumulativeGas (txResults c) /\
  (processTx self generate tx (c, w) = ((c, w), Called (Some gasLimitError))
   <-> (Header.gasLimit (Block.header b)
        < Tx.gasLimit tx + cumulativeGas (txResults c))%N).
Proof.
  intros H.
  destruct (after_prefix self generate b w0 pre c w H)
    as ((Hlen & Hres & Hgas & _) & Hinv & _ & _).
  split; [reflexivity|].
  split; [apply gasUsed_prefix|].
  split; [reflexivity|].
  split; [exact Hlen|]. split; [exact Hres|]. split; [exact Hgas|].
  rewrite <- Hgas, <- (BloomInvariant_gasLimit generate b c Hinv).
  split.
  - intros Hstep. destruct (rejects tx c) eqn:Hrej.
    + by apply N.ltb_lt.
    + destruct (runTx self tx (block c) (store w)) as [s' ret] eqn:Hrun.
      rewrite (processTx_admitted _ _ _ _ _ _ _ Hrej Hrun) in Hstep.
      assert (Hw : log (set_store w s') (EvRunTx tx) = w) by congruence.
      by apply executor_run_is_seen in Hw.
  - intros Hlt. apply processTx_rejected. by apply N.ltb_lt.
Qed.

(** C3 at a block whose second transaction asks for more gas than the
    first one left. *)
Lemma C3_gas_accumulator_witness :
  let st := eachSeries (processTx Example.vm false) [Example.tx1]
              (initCtx Example.blockGreedy, Example.world0) in
  gasUsed (fst (fst st)) = 21000%N /\
  processTx Example.vm false Example.txGreedy (fst st)
  = (fst st, Called (Some gasLimitError)).
Proof.
  pose proof (C3_gas_accumulator Example.vm false Example.blockGreedy
                Example.world0 [Example.tx1] Example.txGreedy _ _ eq_refl)
    as (_ & _ & _ & _ & _ & Hgas & Hiff).
  split; [reflexivity|].
  apply Hiff. vm_compute. reflexivity.
Defined.

(** C9: a transaction rejected by the admission check leaves both
    sequences as they were: after the gas-limit abort on transaction k
    the receipts and the results have exactly k entries, one per
    transaction that succeeded before, none of them null; an executor
    failure, in contrast, appends a null receipt and a result entry. *)
Theorem C9_gas_rejection_appends_nothing (self : VM) (generate : bool)
    (b : Block.t) (w0 : World) (pre post : list Tx.t) (tx : Tx.t)
    (c : Ctx) (w : World) :
  Block.transactions b = pre ++ tx :: post ->
  eachSeries (processTx self generate) pre (initCtx b, w0) = ((c, w), Called None) ->
  (Header.gasLimit (Block.header b) < Tx.gasLimit tx + gasUsed c)%N ->
  processTransactions self generate (initCtx b, w0)
  = ((c, w), Called (Some gasLimitError)) /\
  length (receipts c) = length pre /\
  Forall is_Some (receipts c) /\
  length (txResults c) = length pre /\
  Forall isResult (txResults c) /\
  (forall (e : Error) (v : JsVal),
     receipts (fst (parseTxResult self generate (RunTxErr e v) c))
     = receipts c ++ [None] /\
     txResults (fst (parseTxResult self generate (RunTxErr e v) c))
     = txResults c ++ [v]).
Proof.
  intros Htxs Hpre Hlt.
  destruct (after_prefix self generate b w0 pre c w Hpre)
    as ((Hlen & Hres & _ & Hrl & Hrs & _) & Hinv & _ & _).
  split.
  - unfold processTransactions. simpl fst. simpl block. rewrite Htxs.
    rewrite (eachSeries_app_ok _ _ _ _ _ Hpre).
    apply eachSeries_stop_here; [|discriminate].
    apply processTx_rejected. unfold rejects.
    rewrite (BloomInvariant_gasLimit generate b c Hinv). by apply N.ltb_lt.
  - repeat split; auto.
Qed.

Lemma C9_gas_rejection_appends_nothing_witness :
  let st := fst (processTransactions Example.vm false
                   (initCtx Example.blockGreedy, Example.world0)) in
  snd (processTransactions Example.vm false
         (initCtx Example.blockGreedy, Example.world0))
  = Called (Some gasLimitError) /\
  length (receipts (fst st)) = 1 /\ length (txResults (fst st)) = 1.
Proof.
  pose proof (C9_gas_rejection_appends_nothing Example.vm false
                Example.blockGreedy Example.world0
                [Example.tx1] [Example.tx2] Example.txGreedy _ _
                eq_refl eq_refl) as H.
  destruct H as (Hrun & Hr & _ & Ht & _).
  - vm_compute. reflexivity.
  - rewrite Hrun. simpl. auto.
Defined.




(** The receipt does not carry the aggregate bloom that the claim C2
    gives it: after two transactions with the blooms 1 and 2 the
    running OR is 3, and the second receipt carries 2, the bloom of its
    own transaction. *)
Lemma C2_counterexample :
  let c := fst (fst (processTransactions Example.vm false
                       (initCtx Example.blockOk, Example.world0))) in
  Bloom.bitvector (bloom c) = 3%N /\
  ~ (exists rcpt : Receipt.t,
       receipts c !! 1%nat = Some (Some rcpt) /\
       Receipt.bitvector rcpt = Bloom.bitvector (bloom c)).
Proof.
  split; [reflexivity|].
  intros (rcpt & Hr & Hbits). vm_compute in Hr.
  inversion Hr; subst rcpt. vm_compute in Hbits. discriminate.
Qed.

(** C2, amended: for a transaction the executor ran without an error,
    after k earlier ones, the receipt pushed at position k and the
    tuple RLP-encoded into the receipt trie under the RLP of the counter
    k are {status, gas, bloom, logs} where the status is 1 when the
    executor's [exception] field is truthy and 0 when it is not (so 0
    exactly when the field is 0, the value the source documents for an
    exception), the gas is the big-endian bytes of the cumulative gas
    including this transaction, the bloom is the bit-vector of this
    transaction's own result, and the logs are the result's logs, empty
    when it has none. *)
Theorem C2_receipt_of_successful_tx (self : VM) (generate : bool)
    (b : Block.t) (w0 : World) (pre : list Tx.t) (tx : Tx.t)
    (c : Ctx) (w : World) (s' : Store.t) (r : TxResult.t) :
  eachSeries (processTx self generate) pre (initCtx b, w0) = ((c, w), Called None) ->
  rejects tx c = false ->
  runTx self tx (block c) (store w) = (s', RunTxOk r) ->
  let c' := fst (fst (processTx self generate tx (c, w))) in
  let k := length pre in
  let status := if truthy (Vm.exception (TxResult.vm r)) then 1%Z else 0%Z in
  let gasBytes := toArrayLike (gasUsed c + TxResult.gasUsed r) in
  let bits := Bloom.bitvector (TxResult.bloom r) in
  let logs := default [] (Vm.logs (TxResult.vm r)) in
  snd (processTx self generate tx (c, w)) = Called None /\
  receipts c' !! k = Some (Some (Receipt.mk status gasBytes bits logs)) /\
  length (receipts c') = Datatypes.S k /\
  receiptTrie c' !! k
  = Some (rlpIndex self k, rlpReceipt self (status, gasBytes, bits, logs)) /\
  length (receiptTrie c') = Datatypes.S k /\
  fromBigEndian gasBytes = cumulativeGas (txResults c') /\
  (status = 0%Z \/ status = 1%Z) /\
  (status = 0%Z <-> Vm.exception (TxResult.vm r) = 0%Z).
Proof.
  intros Hpre Hrej Hrun c' k status gasBytes bits logs.
  destruct (after_prefix self generate b w0 pre c w Hpre)
    as ((Hlen & Hres & Hgas & Hrl & Hrs & Hcnt & Htl) & _ & _ & _).
  subst c'. rewrite (processTx_admitted _ _ _ _ _ _ _ Hrej Hrun). simpl.
  rewrite !length_app, cumulativeGas_snoc, Hcnt, Hrl, Htl. simpl.
  split; [reflexivity|].
  split; [by apply list_lookup_middle|].
  split; [lia|].
  split; [by apply list_lookup_middle|].
  split; [lia|].
  split; [subst gasBytes; by rewrite fromBigEndian_toArrayLike, Hgas|].
  subst status. unfold truthy.
  destruct (Z.eqb_spec (Vm.exception (TxResult.vm r)) 0) as [Hz|Hz]; simpl.
  - split; [by left|]. by split.
  - split; [by right|]. split; [discriminate|]. intros. contradiction.
Qed.

Lemma C2_receipt_of_successful_tx_witness :
  let c' := fst (fst (processTx Example.vm false Example.tx2
              (fst (eachSeries (processTx Example.vm false) [Example.tx1]
                      (initCtx Example.blockOk, Example.world0))))) in
  receipts c' !! 1%nat
  = Some (Some (Receipt.mk 1 (toArrayLike 42000) 2 [])) /\
  receiptTrie c' !! 1%nat = Some ([x01], toArrayLike 42000).
Proof.
  pose proof (C2_receipt_of_successful_tx Example.vm false Example.blockOk
                Example.world0 [Example.tx1] Example.tx2 _ _ _ _
                eq_refl eq_refl eq_refl) as (_ & Hr & _ & Ht & _).
  split; [exact Hr | exact Ht].
Defined.

(** ** The pipeline *)

Lemma eachSeries_preserves {S A : Type} (P : S -> Prop)
    (f : A -> S -> S * Completion) (l : list A) : forall s : S,
  Forall (fun x => forall s', P s' -> P (fst (f x s'))) l ->
  P s -> P (fst (eachSeries f l s)).
Proof.
  induction l as [|x l IH]; intros s Hall Hs; [done|].
  apply Forall_cons_1 in Hall as [Hx Hl].
  rewrite eachSeries_cons. specialize (Hx s Hs).
  destruct (f x s) as [s' [[e|]|]]; simpl in *; auto.
Qed.

Section Pipeline.
Variable self : VM.
Variable generate : bool.
Variable b : Block.t.
Variable w0 : World.

Local Abbreviation Inv := (PipelineInvariant generate b w0).

Lemma Inv_start : Inv (initCtx b, w0).
Proof.
  split; [apply BloomInvariant_init|]. split; [done|].
  exists []. by rewrite app_nil_r.
Qed.

Lemma Inv_store (c : Ctx) (w : World) (s : Store.t) :
  Inv (c, w) -> Inv (c, set_store w s).
Proof. intros (Hb & Hcp & Htr). by split. Qed.

Lemma Inv_log (c : Ctx) (w : World) (ev : Event) :
  stageEvent ev = true -> Inv (c, w) -> Inv (c, log w ev).
Proof.
  intros Hev (Hb & Hcp & extra & Htr & Hall). split; [done|]. split; [done|].
  exists (extra ++ [ev]). simpl in *. rewrite Htr, <- app_assoc. split; [done|].
  apply Forall_app. split; [done|]. by constructor.
Qed.

Lemma Inv_beforeBlock (st : Ctx * World) :
  Inv st -> Inv (fst (beforeBlock self st)).
Proof.
  destruct st as [c w]. intros H. unfold beforeBlock.
  destruct (emitBeforeBlock self (block c) (store w)) as [s' done]. simpl.
  apply Inv_log; [done|]. by apply Inv_store.
Qed.

Lemma Inv_processTx (tx : Tx.t) (st : Ctx * World) :
  Inv st -> Inv (fst (processTx self generate tx st)).
Proof.
  destruct st as [c w]. intros H. destruct (rejects tx c) eqn:Hrej.
  - by rewrite processTx_rejected.
  - destruct (runTx self tx (block c) (store w)) as [s' ret] eqn:Hrun.
    rewrite (processTx_admitted _ _ _ _ _ _ _ Hrej Hrun). simpl.
    apply Inv_log; [done|]. apply Inv_store.
    destruct H as (Hb & Hrest). split; [|done].
    by apply BloomInvariant_parse.
Qed.

Lemma Inv_processTransactions (st : Ctx * World) :
  Inv st -> Inv (fst (processTransactions self generate st)).
Proof.
  intros H. unfold processTransactions.
  apply eachSeries_preserves; [|done].
  apply Forall_forall. intros tx _ st'. apply Inv_processTx.
Qed.

Lemma Inv_rewardAccount (a : Address) (reward : Z) (st : Ctx * World) :
  Inv st -> Inv (fst (rewardAccount self a reward st)).
Proof.
  destruct st as [c w]. intros H. unfold rewardAccount.
  destruct (getAccountError self a (store w)); [done|].
  destruct (putAccountError self a _ (store w)); [done|].
  simpl. by apply Inv_store.
Qed.

Lemma Inv_payOmmersAndMiner (st : Ctx * World) :
  Inv st -> Inv (fst (payOmmersAndMiner self st)).
Proof.
  intros H. unfold payOmmersAndMiner, series.
  apply eachSeries_preserves; [|done].
  apply Forall_cons_2; [|apply Forall_cons_2; [|apply Forall_nil_2]];
    intros st' H'.
  - unfold rewardOmmers, each. apply eachSeries_preserves; [|done].
    apply Forall_forall. intros ommer _ st''. apply Inv_rewardAccount.
  - apply Inv_rewardAccount, H'.
Qed.

Lemma Inv_pipeline (st : Ctx * World) :
  Inv st -> Inv (fst (pipeline self generate st)).
Proof.
  intros H. unfold pipeline, series.
  apply eachSeries_preserves; [|done].
  apply Forall_cons_2;
    [|apply Forall_cons_2; [|apply Forall_cons_2; [|apply Forall_nil_2]]];
    intros st' H'.
  - by apply Inv_beforeBlock.
  - by apply Inv_processTransactions.
  - by apply Inv_payOmmersAndMiner.
Qed.

End Pipeline.

(** ** The invocation as a whole *)

Section Invocation.
Variable self : VM.
Variable generate : bool.
Variable b : Block.t.
Variable root : option Buffer.
Variable w : World.

Local Abbreviation args := (ArgsOpts (Opts.mk (Some b) generate root)).
Local Abbreviation start := (initCtx b, openCheckpoint (overrideRoot root w)).

Lemma runBlock_failed (st' : Ctx * World) (e : Error) :
  pipeline self generate start = (st', Called (Some e)) ->
  runBlock self args w
  = ((Some (fst st'),
      log (log (on_stateManager StateManager.revert (snd st')) EvRevert)
          (EvCallback (CbError e))),
     CbError e).
Proof.
  intros H. unfold runBlock, runPipeline. simpl Opts.block. cbv iota.
  simpl Opts.generate. simpl Opts.root. rewrite H. by destruct st'.
Qed.

Lemma runBlock_pending (st' : Ctx * World) :
  pipeline self generate start = (st', NotCalled) ->
  runBlock self args w = ((Some (fst st'), snd st'), CbNotCalled).
Proof.
  intros H. unfold runBlock, runPipeline. simpl Opts.block. cbv iota.
  simpl Opts.generate. simpl Opts.root. rewrite H. by destruct st'.
Qed.

Lemma runBlock_succeeded (st' : Ctx * World) :
  pipeline self generate start = (st', Called None) ->
  runBlock self args w
  = (let committed := commitBlock self generate st' in
     let result := mkBlockResult (receipts (fst (fst committed)))
                     (txResults (fst (fst committed))) (snd committed) in
     let hook := afterBlock self result (snd (fst committed)) in
     match snd hook with
     | Called _ =>
         ((Some (fst (fst committed)),
           log (fst hook) (EvCallback (CbResult (snd committed) result))),
          CbResult (snd committed) result)
     | NotCalled => ((Some (fst (fst committed)), fst hook), CbNotCalled)
     end).
Proof.
  intros H. unfold runBlock, runPipeline. simpl Opts.block. cbv iota.
  simpl Opts.generate. simpl Opts.root. rewrite H.
  unfold parseBlockResults.
  destruct (commitBlock self generate st') as [[c' w3] err']. simpl.
  destruct (afterBlock self _ w3) as [w4 [err|]]; reflexivity.
Qed.

(** Reverting after a failed pipeline gives back the state manager as
    it was when the checkpoint was opened. *)
Lemma revert_restores (st' : Ctx * World) :
  PipelineInvariant generate b (openCheckpoint (overrideRoot root w)) st' ->
  StateManager.revert (stateManager (snd st'))
  = stateManager (overrideRoot root w).
Proof.
  intros (_ & Hcp & _). unfold StateManager.revert. rewrite Hcp. simpl.
  by destruct (stateManager (overrideRoot root w)).
Qed.



End Invocation.







(** C8: an invocation whose options carry no block hands the callback
    the invalid-input error and nothing else, and does so before
    anything is touched: the root is not overridden, also when an
    override is given, no checkpoint is opened, the state manager is as
    it was, and the only event is the callback. *)
Theorem C8_missing_block (self : VM) (opts : Opts.t) (w : World) :
  Opts.block opts = None ->
  runBlock self (ArgsOpts opts) w
  = ((None, log w (EvCallback (CbError blockError))), CbError blockError) /\
  message blockError = "invalid input, block must be provided" /\
  stateManager (snd (fst (runBlock self (ArgsOpts opts) w))) = stateManager w /\
  Store.root (store (snd (fst (runBlock self (ArgsOpts opts) w))))
  = Store.root (store w) /\
  trace (snd (fst (runBlock self (ArgsOpts opts) w)))
  = trace w ++ [EvCallback (CbError blockError)].
Proof. intros H. unfold runBlock. rewrite H. by repeat split. Qed.

Lemma C8_missing_block_witness :
  let run := runBlock Example.vm (ArgsOpts (Opts.mk None true (Some [x09])))
               Example.world0 in
  snd run = CbError blockError /\
  stateManager (snd (fst run)) = stateManager Example.world0 /\
  trace (snd (fst run)) = [EvCallback (CbError blockError)].
Proof.
  pose proof (C8_missing_block Example.vm (Opts.mk None true (Some [x09]))
                Example.world0 eq_refl) as (Hrun & _ & Hsm & _ & Htr).
  split; [by rewrite Hrun|]. split; [exact Hsm | exact Htr].
Defined.



(** ** The combined validation error *)











Lemma checkCommitments_combine (self : VM) (c : Ctx) (s : Store.t)
    (err : option Error) :
  checkCommitments self c s err
  = combineErrors (failingFragments self c s) err.
Proof.
  unfold checkCommitments, failingFragments, combineErrors.
  by destruct (receiptTrieMismatch self c), (bloomMismatch c),
    (gasUsedMismatch c), (stateRootMismatch c s).
Qed.




(** ** Rewards *)

Section Rewards.
Variable self : VM.
Hypothesis getAccount_ok : forall a s, getAccountError self a s = None.
Hypothesis putAccount_ok : forall a acc s, putAccountError self a acc s = None.



End Rewards.

Lemma ommerReward_max (self : VM) (n m : N) :
  ommerReward self n m
  = Z.max 0 ((8 - (Z.of_N n - Z.of_N m)) * (minerReward self ÷ 8)).
Proof.
  unfold ommerReward.
  destruct (Z.ltb_spec ((8 - (Z.of_N n - Z.of_N m)) * (minerReward self ÷ 8)) 0); lia.
Qed.





(** * Further properties *)

(** ** The stages, one by one *)

Section Stages.
Variable self : VM.
Variable generate : bool.

Lemma beforeBlock_inv (c : Ctx) (w : World) (st1 : Ctx * World) (d : Completion) :
  beforeBlock self (c, w) = (st1, d) ->
  exists s1,
    emitBeforeBlock self (block c) (store w) = (s1, d) /\
    st1 = (c, log (set_store w s1) (EvBeforeBlock (block c))).
Proof.
  unfold beforeBlock.
  destruct (emitBeforeBlock self (block c) (store w)) as [s1 d'].
  intros [= <- <-]. by exists s1.
Qed.

Lemma rewardAccount_frame (a : Address) (reward : Z) (st : Ctx * World) :
  fst (fst (rewardAccount self a reward st)) = fst st /\
  trace (snd (fst (rewardAccount self a reward st))) = trace (snd st).
Proof.
  destruct st as [c w]. unfold rewardAccount.
  destruct (getAccountError self a (store w)); [done|].
  by destruct (putAccountError self a _ (store w)).
Qed.

(** Crediting the rewards touches neither the closure variables nor the
    trace, however it ends. *)
Lemma payOmmersAndMiner_frame (st : Ctx * World) :
  fst (fst (payOmmersAndMiner self st)) = fst st /\
  trace (snd (fst (payOmmersAndMiner self st))) = trace (snd st).
Proof.
  set (P := fun st' : Ctx * World =>
              fst st' = fst st /\ trace (snd st') = trace (snd st)).
  assert (Hstep : forall a r st', P st' -> P (fst (rewardAccount self a r st'))).
  { intros a r st' [H1 H2]. destruct (rewardAccount_frame a r st') as [H3 H4].
    split; congruence. }
  change (P (fst (payOmmersAndMiner self st))).
  unfold payOmmersAndMiner, series.
  apply eachSeries_preserves; [|by split].
  apply Forall_cons_2; [|apply Forall_cons_2; [|apply Forall_nil_2]];
    intros st' H'.
  - unfold rewardOmmers, each. apply eachSeries_preserves; [|done].
    apply Forall_forall. intros ommer _ st''. apply Hstep.
  - apply Hstep, H'.
Qed.

(** The three stages of a pipeline that succeeds. *)
Lemma pipeline_success_inv (b : Block.t) (w1 : World) (st' : Ctx * World) :
  pipeline self generate (initCtx b, w1) = (st', Called None) ->
  exists (s1 : Store.t) (w2 : World),
    emitBeforeBlock self b (store w1) = (s1, Called None) /\
    eachSeries (processTx self generate) (Block.transactions b)
      (initCtx b, log (set_store w1 s1) (EvBeforeBlock b))
    = ((fst st', w2), Called None) /\
    payOmmersAndMiner self (fst st', w2) = (st', Called None).
Proof.
  unfold pipeline, series. cbn [eachSeries].
  destruct (beforeBlock self (initCtx b, w1)) as [st1 [[e1|]|]] eqn:H1; try done.
  destruct (processTransactions self generate st1) as [st2 [[e2|]|]] eqn:H2;
    try done.
  destruct (payOmmersAndMiner self st2) as [st3 [[e3|]|]] eqn:H3; try done.
  intros [= <-].
  apply beforeBlock_inv in H1 as (s1 & Hhook & ->).
  pose proof (payOmmersAndMiner_frame st2) as [Hc _]. rewrite H3 in Hc.
  simpl in Hc. destruct st2 as [c2 w2]. simpl in Hc. subst c2.
  exists s1, w2. split; [exact Hhook|]. split; [exact H2 | exact H3].
Qed.

(** What the loop adds to the trace, however it ends: the executor
    runs of a prefix of the transactions, in their order. *)
Lemma loop_trace (txs : list Tx.t) : forall st : Ctx * World,
  exists k : nat,
    trace (snd (fst (eachSeries (processTx self generate) txs st)))
    = trace (snd st) ++ map EvRunTx (take k txs).
Proof.
  induction txs as [|tx txs IH]; intros [c w].
  - exists 0%nat. simpl. by rewrite app_nil_r.
  - rewrite eachSeries_cons. destruct (rejects tx c) eqn:Hrej.
    + rewrite processTx_rejected by done. exists 0%nat. simpl.
      by rewrite app_nil_r.
    + destruct (runTx self tx (block c) (store w)) as [s' ret] eqn:Hrun.
      rewrite (processTx_admitted _ _ _ _ _ _ _ Hrej Hrun).
      destruct ret as [r|e v]; simpl.
      * destruct (IH (fst (parseTxResult self generate (RunTxOk r) c),
                      log (set_store w s') (EvRunTx tx))) as (k & Hk).
        exists (Datatypes.S k). simpl in *. rewrite Hk. by rewrite <- app_assoc.
      * exists 1%nat. simpl. by destruct txs.
Qed.
End Stages.

(** ** The ways an invocation ends *)

Section Outcomes.
Variable self : VM.
Variable generate : bool.
Variable b : Block.t.
Variable root : option Buffer.
Variable w : World.

Local Abbreviation args := (ArgsOpts (Opts.mk (Some b) generate root)).
Local Abbreviation opened := (openCheckpoint (overrideRoot root w)).

Lemma opened_trace :
  trace opened = trace w ++ rootEvents root ++ [EvCheckpoint].
Proof. destruct root; simpl; by rewrite <- ?app_assoc. Qed.

Lemma opened_checkpoints :
  StateManager.checkpoints (stateManager opened)
  = store (overrideRoot root w) :: StateManager.checkpoints (stateManager w).
Proof. by destruct root. Qed.

Lemma commitBlock_facts (c : Ctx) (w' : World) :
  let committed := commitBlock self generate (c, w') in
  let c' := fst (fst committed) in
  receipts c' = receipts c /\
  txResults c' = txResults c /\
  gasUsed c' = gasUsed c /\
  bloom c' = bloom c /\
  receiptTrie c' = receiptTrie c /\
  validReceiptCount c' = validReceiptCount c /\
  block c' =
    (if generate
     then Block.set_header (block c)
            (Header.set_stateRoot (header c) (Store.root (store w')))
     else block c) /\
  trace (snd (fst committed)) = trace w' ++ [EvCommit; EvFlush; EvClear] /\
  StateManager.checkpoints (stateManager (snd (fst committed)))
  = tail (StateManager.checkpoints (stateManager w')) /\
  snd committed =
    (if generate then commitError self (store w')
     else checkCommitments self c (cacheFlush self (store w'))
            (commitError self (store w'))).
Proof.
  unfold commitBlock. simpl. rewrite <- !app_assoc. simpl.
  destruct generate; simpl; repeat split; by destruct c.
Qed.

(** An invocation whose callback is given a result object went
    through a pipeline that succeeded, a commit and the afterBlock
    hook. *)
Lemma result_inv (err : option Error) (result : BlockResult) :
  snd (runBlock self args w) = CbResult err result ->
  exists st' : Ctx * World,
    pipeline self generate (initCtx b, opened) = (st', Called None) /\
    err = snd (commitBlock self generate st') /\
    result = mkBlockResult (receipts (fst st')) (txResults (fst st')) err /\
    fst (fst (runBlock self args w))
    = Some (fst (fst (commitBlock self generate st'))) /\
    trace (snd (fst (runBlock self args w)))
    = trace (snd st')
      ++ [EvCommit; EvFlush; EvClear; EvAfterBlock result;
          EvCallback (CbResult err result)] /\
    StateManager.checkpoints (stateManager (snd (fst (runBlock self args w))))
    = tail (StateManager.checkpoints (stateManager (snd st'))).
Proof.
  destruct (pipeline self generate (initCtx b, opened)) as [st' [[e|]|]] eqn:Hp.
  - by rewrite (runBlock_failed self generate b root w st' e Hp).
  - rewrite (runBlock_succeeded self generate b root w st' Hp). cbv zeta.
    destruct st' as [c' w'].
    destruct (commitBlock_facts c' w')
      as (Hr & Ht & _ & _ & _ & _ & _ & Htr & Hcp & _).
    remember (commitBlock self generate (c', w')) as committed eqn:Hc.
    rewrite Hr, Ht. unfold afterBlock.
    destruct (emitAfterBlock self _ _) as [s4 [herr|]]; simpl; [|done].
    intros [= <- <-]. exists (c', w'). rewrite <- Hc. simpl.
    rewrite Htr, Hcp. repeat split. by rewrite <- !app_assoc.
  - by rewrite (runBlock_pending self generate b root w st' Hp).
Qed.

(** An invocation on a block whose callback is given an error alone
    went through a pipeline that failed with it. *)
Lemma error_inv (e : Error) :
  snd (runBlock self args w) = CbError e ->
  exists st' : Ctx * World,
    pipeline self generate (initCtx b, opened) = (st', Called (Some e)) /\
    runBlock self args w
    = ((Some (fst st'),
        log (log (on_stateManager StateManager.revert (snd st')) EvRevert)
            (EvCallback (CbError e))),
       CbError e).
Proof.
  destruct (pipeline self generate (initCtx b, opened)) as [st' [[e'|]|]] eqn:Hp.
  - rewrite (runBlock_failed self generate b root w st' e' Hp). simpl.
    intros [= <-]. by exists st'.
  - rewrite (runBlock_succeeded self generate b root w st' Hp). cbv zeta.
    by destruct (snd (afterBlock self _ _)).
  - by rewrite (runBlock_pending self generate b root w st' Hp).
Qed.

(** What the pipeline adds to the trace, however it ends: the
    beforeBlock hook, then the executor runs of a prefix of the
    transactions. *)
Lemma pipeline_trace :
  exists k : nat,
    trace (snd (fst (pipeline self generate (initCtx b, opened))))
    = trace opened ++ [EvBeforeBlock b] ++ map EvRunTx (take k (Block.transactions b)).
Proof.
  unfold pipeline, series. cbn [eachSeries].
  destruct (beforeBlock self (initCtx b, opened)) as [st1 d1] eqn:H1.
  apply beforeBlock_inv in H1 as (s1 & _ & ->). simpl block.
  assert (H0 : exists k : nat,
             trace (log (set_store opened s1) (EvBeforeBlock b))
             = trace opened ++ [EvBeforeBlock b]
               ++ map EvRunTx (take k (Block.transactions b))).
  { by exists 0%nat. }
  destruct d1 as [[e1|]|]; [exact H0| |exact H0].
  unfold processTransactions at 1. simpl fst. simpl block.
  destruct (loop_trace self generate (Block.transactions b)
              (initCtx b, log (set_store opened s1) (EvBeforeBlock b)))
    as (k & Hk).
  destruct (eachSeries (processTx self generate) (Block.transactions b) _)
    as [st2 d2] eqn:H2.
  assert (H2' : exists k : nat,
             trace (snd st2)
             = trace opened ++ [EvBeforeBlock b]
               ++ map EvRunTx (take k (Block.transactions b))).
  { exists k. simpl in Hk. rewrite Hk. simpl. by rewrite <- app_assoc. }
  destruct d2 as [[e2|]|]; [exact H2'| |exact H2'].
  pose proof (payOmmersAndMiner_frame self st2) as [_ Htr].
  destruct (payOmmersAndMiner self st2) as [st3 [[e3|]|]]; simpl in *;
    by rewrite Htr.
Qed.
End Outcomes.

(** ** The order of the effects *)

Lemma trace_log_store (w : World) (s : Store.t) (ev : Event) :
  trace (log (set_store w s) ev) = trace w ++ [ev].
Proof. reflexivity. Qed.

Lemma trace_log (w : World) (ev : Event) : trace (log w ev) = trace w ++ [ev].
Proof. reflexivity. Qed.

Lemma trace_on_stateManager (f : StateManager.t -> StateManager.t) (w : World) :
  trace (on_stateManager f w) = trace w.
Proof. reflexivity. Qed.




Lemma success_trace (self : VM) (generate : bool) (b : Block.t)
    (root : option Buffer) (w : World) (err : option Error)
    (result : BlockResult) :
  snd (runBlock self (ArgsOpts (Opts.mk (Some b) generate root)) w)
  = CbResult err result ->
  trace (snd (fst (runBlock self (ArgsOpts (Opts.mk (Some b) generate root)) w)))
  = trace w ++ rootEvents root
    ++ [EvCheckpoint; EvBeforeBlock b]
    ++ map EvRunTx (Block.transactions b)
    ++ [EvCommit; EvFlush; EvClear; EvAfterBlock result;
        EvCallback (CbResult err result)].
Proof.
  intros Hcb.
  destruct (result_inv self generate b root w err result Hcb)
    as (st' & Hp & _ & _ & _ & Htr & _).
  rewrite Htr.
  destruct (pipeline_success_inv self generate b _ st' Hp)
    as (s1 & w2 & _ & Hloop & Hpay).
  destruct (after_prefix self generate b _ _ _ _ Hloop) as (_ & _ & Hruns & _).
  pose proof (payOmmersAndMiner_frame self (fst st', w2)) as [_ Hsame].
  rewrite Hpay in Hsame. simpl in Hsame.
  rewrite Hsame, Hruns, trace_log_store, opened_trace.
  by rewrite <- !app_assoc.
Qed.

Lemma failure_trace (self : VM) (generate : bool) (b : Block.t)
    (root : option Buffer) (w : World) (e : Error) :
  snd (runBlock self (ArgsOpts (Opts.mk (Some b) generate root)) w) = CbError e ->
  exists k : nat,
    trace (snd (fst (runBlock self (ArgsOpts (Opts.mk (Some b) generate root)) w)))
    = trace w ++ rootEvents root
      ++ [EvCheckpoint; EvBeforeBlock b]
      ++ map EvRunTx (take k (Block.transactions b))
      ++ [EvRevert; EvCallback (CbError e)].
Proof.
  intros Hcb.
  destruct (error_inv self generate b root w e Hcb) as (st' & Hp & Hrun).
  destruct (pipeline_trace self generate b root w) as (k & Hk).
  rewrite Hp in Hk. cbn [fst snd] in Hk. exists k.
  rewrite Hrun. cbn [fst snd].
  rewrite !trace_log, trace_on_stateManager, Hk, opened_trace.
  by rewrite <- !app_assoc.
Qed.

(** X6: when the callback is given a result object, the invocation did
    exactly this, in this order: the root override if one was given,
    the checkpoint, the beforeBlock hook with the block, one executor
    run for each transaction of the block in the order of the block,
    the commit, the flush and the clearing of the cache, the afterBlock
    hook with the result, the callback with the same result. *)
Theorem X6_success_trace (self : VM) (generate : bool) (b : Block.t)
    (root : option Buffer) (w : World) (err : option Error)
    (result : BlockResult) :
  let run := runBlock self (ArgsOpts (Opts.mk (Some b) generate root)) w in
  snd run = CbResult err result ->
  trace (snd (fst run))
  = trace w ++ rootEvents root
    ++ [EvCheckpoint; EvBeforeBlock b]
    ++ map EvRunTx (Block.transactions b)
    ++ [EvCommit; EvFlush; EvClear; EvAfterBlock result;
        EvCallback (CbResult err result)].
Proof.
  intros run Hcb. subst run.
  rewrite (success_trace self generate b root w err result Hcb).
  reflexivity.
Qed.

Lemma X6_success_trace_witness :
  exists result,
    trace (snd (fst (runBlock Example.vm
                       (ArgsOpts (Opts.mk (Some Example.blockOk) true (Some [x09])))
                       Example.world0)))
    = [EvSetRoot [x09]; EvCheckpoint; EvBeforeBlock Example.blockOk;
       EvRunTx Example.tx1; EvRunTx Example.tx2;
       EvCommit; EvFlush; EvClear; EvAfterBlock result;
       EvCallback (CbResult None result)].
Proof.
  eexists.
  exact (X6_success_trace Example.vm true Example.blockOk (Some [x09])
           Example.world0 None _ eq_refl).
Defined.

(** X7: when the callback of an invocation on a block is given an
    error alone, the invocation did exactly this: the root override if
    one was given, the checkpoint, the beforeBlock hook, executor runs
    for the first k transactions of the block in their order, for some
    k, the revert, the callback.  It did not commit, flush or clear,
    and it did not fire the afterBlock hook. *)
Theorem X7_failure_trace (self : VM) (generate : bool) (b : Block.t)
    (root : option Buffer) (w : World) (e : Error) :
  let run := runBlock self (ArgsOpts (Opts.mk (Some b) generate root)) w in
  snd run = CbError e ->
  exists k : nat,
    trace (snd (fst run))
    = trace w ++ rootEvents root
      ++ [EvCheckpoint; EvBeforeBlock b]
      ++ map EvRunTx (take k (Block.transactions b))
      ++ [EvRevert; EvCallback (CbError e)].
Proof.
  intros run Hcb. subst run.
  destruct (failure_trace self generate b root w e Hcb) as (k & Hk).
  exists k. exact Hk.
Qed.

Lemma X7_failure_trace_witness :
  exists k : nat,
    trace (snd (fst (runBlock Example.vm
                       (ArgsOpts (Opts.mk (Some Example.blockFailing) false None))
                       Example.world0)))
    = [EvCheckpoint; EvBeforeBlock Example.blockFailing]
      ++ map EvRunTx (take k (Block.transactions Example.blockFailing))
      ++ [EvRevert; EvCallback (CbError Example.boom)].
Proof.
  exact (X7_failure_trace Example.vm false Example.blockFailing None
           Example.world0 Example.boom eq_refl).
Defined.



(** ** The checkpoint *)

(** X4: whenever the callback is invoked, with an error or with a
    result, and also on invalid input, the checkpoints of the state
    manager are those it had before the call: the checkpoint that the
    invocation opened has been resolved, by the revert or by the
    commit, and no other one has been touched. *)
Theorem X4_checkpoint_resolved (self : VM) (args : Args) (w : World) :
  let run := runBlock self args w in
  snd run <> CbNotCalled ->
  StateManager.checkpoints (stateManager (snd (fst run)))
  = StateManager.checkpoints (stateManager w).
Proof.
  intros run Hcalled. subst run.
  destruct args as [|[[b|] generate root]]; [done| |done].
  pose proof (Inv_pipeline self generate b _
                (initCtx b, openCheckpoint (overrideRoot root w))
                (Inv_start generate b _)) as Hinv.
  destruct (snd (runBlock self (ArgsOpts (Opts.mk (Some b) generate root)) w))
    as [|e|err result] eqn:Hcb; [done| |].
  - destruct (error_inv self generate b root w e Hcb) as (st' & Hp & Hrun).
    rewrite Hp in Hinv. rewrite Hrun. cbn [fst snd].
    change (StateManager.checkpoints (StateManager.revert (stateManager (snd st')))
            = StateManager.checkpoints (stateManager w)).
    rewrite (revert_restores generate b root w st' Hinv).
    by destruct root.
  - destruct (result_inv self generate b root w err result Hcb)
      as (st' & Hp & _ & _ & _ & _ & Hcp).
    rewrite Hp in Hinv. destruct Hinv as (_ & Hsame & _).
    cbn [fst snd] in Hsame. rewrite Hcp, Hsame, opened_checkpoints. done.
Qed.

Lemma X4_checkpoint_resolved_witness :
  StateManager.checkpoints
    (stateManager (snd (fst (runBlock Example.vm
                               (ArgsOpts (Opts.mk (Some Example.blockOk) true None))
                               Example.world0))))
  = [].
Proof.
  apply (X4_checkpoint_resolved Example.vm
           (ArgsOpts (Opts.mk (Some Example.blockOk) true None)) Example.world0).
  discriminate.
Defined.

(** X16: when the beforeBlock hook never calls back, nothing else
    happens: no transaction reaches the executor, the callback is not
    invoked, and the checkpoint that was opened stays open, on top of
    those the state manager had. *)
Theorem X16_beforeBlock_never_returns (self : VM) (generate : bool)
    (b : Block.t) (root : option Buffer) (w : World) (s1 : Store.t) :
  let run := runBlock self (ArgsOpts (Opts.mk (Some b) generate root)) w in
  emitBeforeBlock self b (store (overrideRoot root w)) = (s1, NotCalled) ->
  snd run = CbNotCalled /\
  fst (fst run) = Some (initCtx b) /\
  trace (snd (fst run))
  = trace w ++ rootEvents root ++ [EvCheckpoint; EvBeforeBlock b] /\
  store (snd (fst run)) = s1 /\
  StateManager.checkpoints (stateManager (snd (fst run)))
  = store (overrideRoot root w) :: StateManager.checkpoints (stateManager w).
Proof.
  intros run Hhook. subst run.
  assert (Hp : pipeline self generate
                 (initCtx b, openCheckpoint (overrideRoot root w))
               = ((initCtx b,
                   log (set_store (openCheckpoint (overrideRoot root w)) s1)
                       (EvBeforeBlock b)),
                  NotCalled)).
  { unfold pipeline, series. cbn [eachSeries]. unfold beforeBlock.
    change (store (openCheckpoint (overrideRoot root w)))
      with (store (overrideRoot root w)).
    simpl block. by rewrite Hhook. }
  rewrite (runBlock_pending self generate b root w _ Hp). cbn [fst snd].
  rewrite trace_log_store, opened_trace, <- !app_assoc.
  split; [done|]. split; [done|]. split; [done|]. split; [done|].
  by destruct root.
Qed.

Lemma X16_beforeBlock_never_returns_witness :
  let run := runBlock Example2.vmHanging
               (ArgsOpts (Opts.mk (Some Example.blockOk) false None))
               Example.world0 in
  snd run = CbNotCalled /\
  trace (snd (fst run)) = [EvCheckpoint; EvBeforeBlock Example.blockOk] /\
  StateManager.checkpoints (stateManager (snd (fst run))) = [Example.store0].
Proof.
  destruct (X16_beforeBlock_never_returns Example2.vmHanging false
              Example.blockOk None Example.world0 Example.store0 eq_refl)
    as (Hcb & _ & Htr & _ & Hcp).
  split; [exact Hcb|]. split; [exact Htr | exact Hcp].
Defined.

(** ** What the closure variables keep *)

Section Kept.
Variable self : VM.
Variable generate : bool.

(** The closure variables at the end of the pipeline are those the
    transaction loop left, or the initial ones when the beforeBlock
    hook stopped the pipeline. *)
Lemma pipeline_ctx (c0 : Ctx) (w : World) :
  fst (fst (pipeline self generate (c0, w))) = c0 \/
  exists w1,
    fst (fst (pipeline self generate (c0, w)))
    = fst (fst (eachSeries (processTx self generate)
                  (Block.transactions (block c0)) (c0, w1))).
Proof.
  unfold pipeline, series. cbn [eachSeries].
  destruct (beforeBlock self (c0, w)) as [st1 d1] eqn:H1.
  apply beforeBlock_inv in H1 as (s1 & _ & ->).
  destruct d1 as [[e1|]|]; [by left| |by left].
  right. exists (log (set_store w s1) (EvBeforeBlock (block c0))).
  unfold processTransactions at 1. cbn [fst].
  destruct (eachSeries (processTx self generate) _ _) as [st2 [[e2|]|]];
    [done| |done].
  pose proof (payOmmersAndMiner_frame self st2) as [Hc _].
  by destruct (payOmmersAndMiner self st2) as [st3 [[e3|]|]].
Qed.

(** What every transaction keeps of the closure variables, the
    pipeline keeps. *)
Lemma pipeline_keeps (P : Ctx -> Prop) (c0 : Ctx) (w : World) :
  (forall tx c w', P c -> P (fst (fst (processTx self generate tx (c, w'))))) ->
  P c0 -> P (fst (fst (pipeline self generate (c0, w)))).
Proof.
  intros Hstep H0.
  destruct (pipeline_ctx c0 w) as [->|(w1 & ->)]; [done|].
  apply (eachSeries_preserves (fun st => P (fst st))); [|done].
  apply Forall_forall. intros tx _ [c w'] Hc. by apply Hstep.
Qed.

Lemma loop_length (txs : list Tx.t) : forall st : Ctx * World,
  length (receipts (fst (fst (eachSeries (processTx self generate) txs st))))
  <= length (receipts (fst st)) + length txs.
Proof.
  induction txs as [|tx txs IH]; intros [c w]; [simpl; lia|].
  rewrite eachSeries_cons. destruct (rejects tx c) eqn:Hrej.
  - rewrite processTx_rejected by done. simpl. lia.
  - destruct (runTx self tx (block c) (store w)) as [s' ret] eqn:Hrun.
    rewrite (processTx_admitted _ _ _ _ _ _ _ Hrej Hrun).
    destruct ret as [r|e v]; cbn [snd parseTxResult].
    + etrans; [apply IH|]. simpl. rewrite length_app. simpl. lia.
    + simpl. rewrite length_app. simpl. lia.
Qed.

Lemma Aligned_init (b : Block.t) : Aligned self (initCtx b).
Proof. by repeat split. Qed.

Lemma Aligned_processTx (tx : Tx.t) (c : Ctx) (w : World) :
  Aligned self c -> Aligned self (fst (fst (processTx self generate tx (c, w)))).
Proof.
  intros (Hlen & Hcnt & Htrie & Hkeys). destruct (rejects tx c) eqn:Hrej.
  - by rewrite processTx_rejected.
  - destruct (runTx self tx (block c) (store w)) as [s' ret] eqn:Hrun.
    rewrite (processTx_admitted _ _ _ _ _ _ _ Hrej Hrun). cbn [fst].
    unfold Aligned. destruct ret as [r|e v]; cbn -[seq].
    + rewrite !length_app, successful_snoc, map_app, seq_S, map_app, Hkeys.
      simpl. repeat split; lia.
    + rewrite !length_app, successful_snoc. simpl length.
      repeat split; try lia. done.
Qed.

Lemma GasRecorded_init (b : Block.t) : GasRecorded (initCtx b).
Proof. by repeat split. Qed.

Lemma GasRecorded_success (c : Ctx) (r : TxResult.t) :
  GasRecorded c -> GasRecorded (fst (parseTxResult self generate (RunTxOk r) c)).
Proof.
  intros (Hgas & Hlen & Hrec). unfold GasRecorded. simpl.
  rewrite cumulativeGas_snoc, !length_app, Hgas, Hlen. simpl.
  split; [done|]. split; [done|]. intros i rc Hi.
  destruct (decide (i < length (receipts c))) as [Hlt|Hge].
  - rewrite lookup_app_l in Hi by done.
    rewrite take_app_le by lia. by apply Hrec.
  - assert (i = length (receipts c)) as ->.
    { apply lookup_lt_Some in Hi. rewrite length_app in Hi. simpl in Hi. lia. }
    rewrite list_lookup_middle in Hi by done. injection Hi as <-.
    rewrite Hlen, take_ge by (rewrite length_app; simpl; lia).
    unfold decodeGas. simpl.
    by rewrite fromBigEndian_toArrayLike, cumulativeGas_snoc.
Qed.

(** What every successful transaction keeps of the closure variables, a
    run of transactions that all succeed keeps. *)
Lemma loop_success_keeps (P : Ctx -> Prop) (txs : list Tx.t) :
  (forall c r, P c -> P (fst (parseTxResult self generate (RunTxOk r) c))) ->
  forall (c0 c : Ctx) (w0 w : World),
    P c0 ->
    eachSeries (processTx self generate) txs (c0, w0) = ((c, w), Called None) ->
    P c.
Proof.
  intros Hstep. induction txs as [|tx txs IH]; intros c0 c w0 w H0 H.
  - simpl in H. by inversion H; subst.
  - rewrite eachSeries_cons in H.
    destruct (processTx self generate tx (c0, w0)) as [[c1 w1] [[e|]|]] eqn:Hs;
      try discriminate.
    apply processTx_ok_inv in Hs as (s' & r & _ & _ & -> & ->).
    eapply IH; [|exact H]. by apply Hstep.
Qed.
End Kept.

(** The closure variables at the end of an invocation on a block are
    those the pipeline left, after the commit when it succeeded. *)
Lemma final_ctx (self : VM) (generate : bool) (b : Block.t)
    (root : option Buffer) (w : World) (c : Ctx) :
  fst (fst (runBlock self (ArgsOpts (Opts.mk (Some b) generate root)) w)) = Some c ->
  let st' := fst (pipeline self generate
                    (initCtx b, openCheckpoint (overrideRoot root w))) in
  c = fst st' \/ c = fst (fst (commitBlock self generate st')).
Proof.
  destruct (pipeline self generate
              (initCtx b, openCheckpoint (overrideRoot root w)))
    as [st' [[e|]|]] eqn:Hp; cbn [fst].
  - rewrite (runBlock_failed self generate b root w st' e Hp). simpl.
    intros [= <-]. by left.
  - rewrite (runBlock_succeeded self generate b root w st' Hp). cbv zeta.
    destruct (snd (afterBlock self _ _)); simpl; intros [= <-]; by right.
  - rewrite (runBlock_pending self generate b root w st' Hp). simpl.
    intros [= <-]. by left.
Qed.

(** X3: an invocation writes nothing of the block but, in generate
    mode, the bloom and the state root of its header: whatever the
    outcome, the transactions, the ommer headers and the number, gas
    limit, gas used, receipt root and coinbase of the header are those
    of the block that was passed, and in validation mode the whole
    block is. *)
Theorem X3_block_frame (self : VM) (generate : bool) (b : Block.t)
    (root : option Buffer) (w : World) (c : Ctx) :
  fst (fst (runBlock self (ArgsOpts (Opts.mk (Some b) generate root)) w)) = Some c ->
  Block.transactions (block c) = Block.transactions b /\
  Block.uncleHeaders (block c) = Block.uncleHeaders b /\
  Header.number (header c) = Header.number (Block.header b) /\
  Header.gasLimit (header c) = Header.gasLimit (Block.header b) /\
  Header.gasUsed (header c) = Header.gasUsed (Block.header b) /\
  Header.receiptTrie (header c) = Header.receiptTrie (Block.header b) /\
  Header.coinbase (header c) = Header.coinbase (Block.header b) /\
  (generate = false -> block c = b).
Proof.
  intros Hc. apply final_ctx in Hc. cbv zeta in Hc.
  pose proof (Inv_pipeline self generate b _
                (initCtx b, openCheckpoint (overrideRoot root w))
                (Inv_start generate b _)) as ((_ & _ & Hblk) & _).
  destruct (pipeline self generate _) as [[c' w'] d]. cbn [fst] in *.
  destruct (commitBlock_facts self generate c' w')
    as (_ & _ & _ & _ & _ & _ & Hblk' & _).
  assert (Hb : block c = block c' \/
               (generate = true /\
                block c = Block.set_header (block c')
                            (Header.set_stateRoot (header c')
                               (Store.root (store w'))))).
  { destruct Hc as [->| ->]; [by left|]. rewrite Hblk'.
    destruct generate; [by right | by left]. }
  unfold header in *.
  destruct Hb as [Hb | [Hg Hb]]; rewrite Hb, Hblk;
    destruct generate, (0 <? validReceiptCount c')%nat; by repeat split.
Qed.

Lemma X3_block_frame_witness :
  exists c,
    fst (fst (runBlock Example.vm
                (ArgsOpts (Opts.mk (Some Example.blockOk) true None))
                Example.world0)) = Some c /\
    Header.stateRoot (header c) <> Header.stateRoot Example.hdr /\
    Header.bloom (header c) = 3%N /\
    Header.gasUsed (header c) = 42000%N /\
    Block.transactions (block c) = [Example.tx1; Example.tx2].
Proof.
  eexists. split; [reflexivity|].
  pose proof (X3_block_frame Example.vm true Example.blockOk None
                Example.world0 _ eq_refl) as (Htxs & _ & _ & _ & Hgas & _).
  split; [vm_compute; discriminate|]. split; [reflexivity|].
  split; [exact Hgas | exact Htxs].
Defined.

(** X14: whatever the outcome of an invocation on a block, its
    sequences go together: there is a receipt for every result and at
    most one of each per transaction of the block, the receipt trie has
    one entry for every receipt that is not null, and these entries
    were put under the RLP of 0, 1, 2, ... in this order. *)
Theorem X14_sequences_aligned (self : VM) (generate : bool) (b : Block.t)
    (root : option Buffer) (w : World) (c : Ctx) :
  fst (fst (runBlock self (ArgsOpts (Opts.mk (Some b) generate root)) w)) = Some c ->
  length (receipts c) = length (txResults c) /\
  length (receipts c) <= length (Block.transactions b) /\
  length (receiptTrie c) = length (successful (receipts c)) /\
  map fst (receiptTrie c)
  = map (rlpIndex self) (seq 0 (length (successful (receipts c)))).
Proof.
  intros Hc. apply final_ctx in Hc. cbv zeta in Hc.
  set (start := (initCtx b, openCheckpoint (overrideRoot root w))) in *.
  assert (Hal : Aligned self (fst (fst (pipeline self generate start)))).
  { apply pipeline_keeps; [|apply Aligned_init].
    intros tx c0 w0. apply Aligned_processTx. }
  assert (Hlen : length (receipts (fst (fst (pipeline self generate start))))
                 <= length (Block.transactions b)).
  { destruct (pipeline_ctx self generate (initCtx b) (snd start))
      as [Hsame|(w1 & Hsame)]; subst start; cbn [snd] in Hsame;
      rewrite Hsame.
    - simpl. lia.
    - etrans; [apply loop_length|]. simpl. lia. }
  destruct (pipeline self generate start) as [[c' w'] d]. cbn [fst] in *.
  destruct (commitBlock_facts self generate c' w')
    as (Hr & Ht & _ & _ & Htrie & Hcnt & _).
  destruct Hal as (H1 & H2 & H3 & H4).
  destruct Hc as [->| ->]; rewrite ?Hr, ?Ht, ?Htrie, <- H2;
    by repeat split.
Qed.

Lemma X14_sequences_aligned_witness :
  exists c,
    fst (fst (runBlock Example.vm
                (ArgsOpts (Opts.mk (Some Example.blockFailing) false None))
                Example.world0)) = Some c /\
    length (receipts c) = 2 /\ length (txResults c) = 2 /\
    map fst (receiptTrie c) = [[x00]].
Proof.
  eexists. split; [reflexivity|].
  pose proof (X14_sequences_aligned Example.vm false Example.blockFailing None
                Example.world0 _ eq_refl) as (Hlen & _ & _ & Hkeys).
  split; [reflexivity|]. split; [by rewrite <- Hlen | exact Hkeys].
Defined.

(** ** The result object *)

Lemma cumulativeGas_from (l : list JsVal) (acc : N) :
  fold_left (fun a v => (a + reportedGas v)%N) l acc
  = (acc + cumulativeGas l)%N.
Proof.
  unfold cumulativeGas. revert acc.
  induction l as [|v l IH]; intros acc; simpl; [lia|].
  rewrite IH, (IH (0 + reportedGas v)%N). lia.
Qed.

Lemma cumulativeGas_app (l k : list JsVal) :
  cumulativeGas (l ++ k) = (cumulativeGas l + cumulativeGas k)%N.
Proof.
  unfold cumulativeGas at 1. rewrite fold_left_app.
  fold (cumulativeGas l). apply cumulativeGas_from.
Qed.

Lemma cumulativeGas_take_mono (l : list JsVal) (i j : nat) :
  i <= j -> (cumulativeGas (take i l) <= cumulativeGas (take j l))%N.
Proof.
  intros Hij. replace j with (i + (j - i)) by lia.
  rewrite <- take_take_drop, cumulativeGas_app. lia.
Qed.

(** The result object of a block, in terms of its pipeline. *)
Lemma result_of_success (self : VM) (generate : bool) (b : Block.t)
    (root : option Buffer) (w : World) (err : option Error)
    (result : BlockResult) :
  snd (runBlock self (ArgsOpts (Opts.mk (Some b) generate root)) w)
  = CbResult err result ->
  exists c : Ctx,
    result = mkBlockResult (receipts c) (txResults c) err /\
    AfterSuccesses (length (Block.transactions b)) c /\
    GasRecorded c /\
    BloomInvariant generate b c.
Proof.
  intros Hcb.
  destruct (result_inv self generate b root w err result Hcb)
    as (st' & Hp & _ & Hres & _).
  destruct (pipeline_success_inv self generate b _ st' Hp)
    as (s1 & w2 & _ & Hloop & _).
  exists (fst st'). split; [exact Hres|].
  destruct (after_prefix self generate b _ _ _ _ Hloop) as (Hok & Hbl & _).
  split; [exact Hok|]. split; [|exact Hbl].
  eapply (loop_success_keeps self generate GasRecorded); [|apply GasRecorded_init|exact Hloop].
  intros c r. apply GasRecorded_success.
Qed.

(** X8: the result object that the callback is given has one receipt
    and one result for every transaction of the block, none of the
    receipts is null and every result is one the executor returned
    without an error; its error is the error the callback is given. *)
Theorem X8_result_complete (self : VM) (generate : bool) (b : Block.t)
    (root : option Buffer) (w : World) (err : option Error)
    (result : BlockResult) :
  snd (runBlock self (ArgsOpts (Opts.mk (Some b) generate root)) w)
  = CbResult err result ->
  res_error result = err /\
  length (res_receipts result) = length (Block.transactions b) /\
  Forall is_Some (res_receipts result) /\
  length (res_results result) = length (Block.transactions b) /\
  Forall isResult (res_results result).
Proof.
  intros Hcb.
  destruct (result_of_success self generate b root w err result Hcb)
    as (c & -> & (Hlen & Hres & _ & Hrl & Hrs & _) & _). simpl.
  by repeat split.
Qed.

Lemma X8_result_complete_witness :
  exists result,
    snd (runBlock Example.vm
           (ArgsOpts (Opts.mk (Some Example.blockOk) true None)) Example.world0)
    = CbResult None result /\
    length (res_receipts result) = 2 /\ length (res_results result) = 2.
Proof.
  eexists. split; [reflexivity|].
  pose proof (X8_result_complete Example.vm true Example.blockOk None
                Example.world0 None _ eq_refl) as (_ & Hr & _ & Ht & _).
  split; [exact Hr | exact Ht].
Defined.

(** X9: in the result object the gas bytes of the receipt at position i
    spell, most significant byte first, the sum of the gas that the
    results 0..i report; so the gas of the receipts never decreases
    along the block. *)
Theorem X9_receipt_gas_cumulative (self : VM) (generate : bool) (b : Block.t)
    (root : option Buffer) (w : World) (err : option Error)
    (result : BlockResult) (i : nat) (r : Receipt.t) :
  snd (runBlock self (ArgsOpts (Opts.mk (Some b) generate root)) w)
  = CbResult err result ->
  res_receipts result !! i = Some (Some r) ->
  decodeGas r = cumulativeGas (take (Datatypes.S i) (res_results result)) /\
  forall (j : nat) (r' : Receipt.t),
    i <= j -> res_receipts result !! j = Some (Some r') ->
    (decodeGas r <= decodeGas r')%N.
Proof.
  intros Hcb Hi.
  destruct (result_of_success self generate b root w err result Hcb)
    as (c & -> & _ & (_ & _ & Hrec) & _). simpl in *.
  split; [by apply Hrec|].
  intros j r' Hij Hj. rewrite (Hrec i r Hi), (Hrec j r' Hj).
  apply cumulativeGas_take_mono. lia.
Qed.

Lemma X9_receipt_gas_cumulative_witness :
  exists r, decodeGas r = 42000%N /\ Receipt.gasUsed r = toArrayLike 42000.
Proof.
  eexists (Receipt.mk 1 (toArrayLike 42000) 2 []).
  split; [|reflexivity].
  apply (X9_receipt_gas_cumulative Example.vm true Example.blockOk None
           Example.world0 None _ 1%nat _ eq_refl eq_refl).
Defined.

(** ** Blooms and gas *)

Lemma bitsWithin_lor_l (x y : N) : bitsWithin x (N.lor x y).
Proof.
  unfold bitsWithin. apply N.bits_inj. intros n.
  rewrite N.land_spec, N.lor_spec. by destruct (N.testbit x n), (N.testbit y n).
Qed.

Lemma bitsWithin_lor_r (x y : N) : bitsWithin y (N.lor x y).
Proof.
  unfold bitsWithin. apply N.bits_inj. intros n.
  rewrite N.land_spec, N.lor_spec. by destruct (N.testbit x n), (N.testbit y n).
Qed.

Lemma bitsWithin_trans (x y z : N) :
  bitsWithin x y -> bitsWithin y z -> bitsWithin x z.
Proof.
  unfold bitsWithin. intros Hxy Hyz.
  rewrite <- Hxy at 1. by rewrite <- N.land_assoc, Hyz.
Qed.

Lemma aggregate_from (rs : list (option Receipt.t)) : forall acc : N,
  bitsWithin acc (fold_left (fun a r => N.lor a (receiptBits r)) rs acc) /\
  forall r, In r rs ->
    bitsWithin (receiptBits r)
      (fold_left (fun a r => N.lor a (receiptBits r)) rs acc).
Proof.
  induction rs as [|r0 rs IH]; intros acc; simpl.
  - split; [|done]. unfold bitsWithin. apply N.land_diag.
  - destruct (IH (N.lor acc (receiptBits r0))) as [Hacc Hin]. split.
    + eapply bitsWithin_trans; [apply bitsWithin_lor_l | exact Hacc].
    + intros r [<-|Hr]; [|by apply Hin].
      eapply bitsWithin_trans; [apply bitsWithin_lor_r | exact Hacc].
Qed.

Lemma successful_In (rs : list (option Receipt.t)) (r : Receipt.t) :
  In (Some r) rs -> 0 < length (successful rs).
Proof.
  induction rs as [|[r0|] rs IH]; simpl; [done| |].
  - intros _. lia.
  - intros [?|H]; [done|]. by apply IH.
Qed.

(** X10: whatever the outcome of an invocation on a block, every bit of
    the bloom of every receipt is a bit of the aggregate bloom of the
    invocation; in generate mode it is also a bit of the bloom that the
    header of the block is left with. *)
Theorem X10_bloom_contains_receipts (self : VM) (generate : bool)
    (b : Block.t) (root : option Buffer) (w : World) (c : Ctx)
    (r : Receipt.t) :
  fst (fst (runBlock self (ArgsOpts (Opts.mk (Some b) generate root)) w)) = Some c ->
  In (Some r) (receipts c) ->
  bitsWithin (Receipt.bitvector r) (Bloom.bitvector (bloom c)) /\
  (generate = true ->
   bitsWithin (Receipt.bitvector r) (Header.bloom (header c))).
Proof.
  intros Hc Hr. apply final_ctx in Hc. cbv zeta in Hc.
  pose proof (Inv_pipeline self generate b _
                (initCtx b, openCheckpoint (overrideRoot root w))
                (Inv_start generate b _)) as ((Hagg & Hcnt & Hblk) & _).
  destruct (pipeline self generate _) as [[c' w'] d]. cbn [fst] in *.
  destruct (commitBlock_facts self generate c' w')
    as (Hrs & _ & _ & Hbl & _ & _ & Hblk' & _).
  assert (Hsame : receipts c = receipts c' /\ bloom c = bloom c' /\
                  Header.bloom (header c) = Header.bloom (header c')).
  { destruct Hc as [->| ->]; [done|]. rewrite Hrs, Hbl. unfold header.
    rewrite Hblk'. by destruct generate. }
  destruct Hsame as (Hr' & Hb' & Hh'). rewrite Hr' in Hr. rewrite Hb', Hh'.
  assert (Hin : bitsWithin (Receipt.bitvector r) (Bloom.bitvector (bloom c'))).
  { rewrite Hagg. by apply (proj2 (aggregate_from (receipts c') 0) (Some r)). }
  split; [exact Hin|]. intros ->.
  apply successful_In in Hr. rewrite <- Hcnt in Hr.
  unfold header. rewrite Hblk. simpl.
  destruct (Nat.ltb_spec 0 (validReceiptCount c')); [exact Hin | lia].
Qed.

Lemma X10_bloom_contains_receipts_witness :
  exists c,
    fst (fst (runBlock Example.vm
                (ArgsOpts (Opts.mk (Some Example.blockOk) true None))
                Example.world0)) = Some c /\
    Header.bloom (header c) = 3%N /\ bitsWithin 2 (Header.bloom (header c)).
Proof.
  eexists. split; [reflexivity|]. split; [reflexivity|].
  refine (proj2 (X10_bloom_contains_receipts Example.vm true Example.blockOk None
                   Example.world0 _ (Receipt.mk 1 (toArrayLike 42000) 2 [])
                   eq_refl _) eq_refl).
  simpl. auto.
Defined.

(** X11: when the executor never reports more gas than the limit the
    transaction declares, the cumulative gas of an invocation never
    exceeds the gas limit that the header of the block declares,
    whatever the outcome; in particular the gas that the results of a
    result object report sums to no more than that limit. *)
Theorem X11_gas_within_block_limit (self : VM) (generate : bool)
    (b : Block.t) (root : option Buffer) (w : World) :
  let run := runBlock self (ArgsOpts (Opts.mk (Some b) generate root)) w in
  NoOvercharge self ->
  (forall c : Ctx,
     fst (fst run) = Some c ->
     (gasUsed c <= Header.gasLimit (Block.header b))%N) /\
  (forall (err : option Error) (result : BlockResult),
     snd run = CbResult err result ->
     (cumulativeGas (res_results result) <= Header.gasLimit (Block.header b))%N).
Proof.
  intros run Hfair. subst run.
  set (limit := Header.gasLimit (Block.header b)).
  set (P := fun c0 : Ctx => BloomInvariant generate b c0 /\ (gasUsed c0 <= limit)%N).
  assert (HP : P (fst (fst (pipeline self generate
                              (initCtx b, openCheckpoint (overrideRoot root w)))))).
  { apply pipeline_keeps.
    - intros tx c0 w0 [Hinv Hle].
      split; [by apply BloomInvariant_processTx|].
      destruct (rejects tx c0) eqn:Hrej.
      + by rewrite processTx_rejected.
      + destruct (runTx self tx (block c0) (store w0)) as [s' ret] eqn:Hrun.
        rewrite (processTx_admitted _ _ _ _ _ _ _ Hrej Hrun). cbn [fst].
        rewrite gasUsed_parse. destruct ret as [r|e v]; [|done].
        apply Hfair in Hrun. unfold rejects in Hrej.
        rewrite (BloomInvariant_gasLimit generate b c0 Hinv) in Hrej.
        apply N.ltb_ge in Hrej. fold limit in Hrej. lia.
    - split; [apply BloomInvariant_init|]. simpl. lia. }
  destruct HP as [_ Hle]. split.
  - intros c Hc. apply final_ctx in Hc. cbv zeta in Hc.
    destruct (pipeline self generate _) as [[c' w'] d]. cbn [fst] in *.
    destruct (commitBlock_facts self generate c' w') as (_ & _ & Hg & _).
    destruct Hc as [->| ->]; by rewrite ?Hg.
  - intros err result Hcb.
    destruct (result_inv self generate b root w err result Hcb)
      as (st' & Hp & _ & -> & _).
    destruct (pipeline_success_inv self generate b _ st' Hp)
      as (s1 & w2 & _ & Hloop & _).
    destruct (after_prefix self generate b _ _ _ _ Hloop)
      as ((_ & _ & Hg & _) & _).
    rewrite Hp in Hle. cbn [fst] in Hle. simpl. by rewrite <- Hg.
Qed.

Lemma X11_gas_within_block_limit_witness :
  exists result,
    snd (runBlock Example2.vmThrifty
           (ArgsOpts (Opts.mk (Some Example.blockOk) true None)) Example.world0)
    = CbResult None result /\
    cumulativeGas (res_results result) = 30000%N /\
    (cumulativeGas (res_results result) <= 100000)%N.
Proof.
  eexists. split; [reflexivity|]. split; [reflexivity|].
  refine (proj2 (X11_gas_within_block_limit Example2.vmThrifty true
                   Example.blockOk None Example.world0 _) None _ eq_refl).
  intros tx blk s s' r [= _ <-]. simpl.
  apply N.Div0.div_le_upper_bound. lia.
Defined.

(** ** The two modes *)

Lemma combineErrors_None (fragments : list string) (err : option Error) :
  combineErrors fragments err = None <-> fragments = [] /\ err = None.
Proof.
  split; [|by intros [-> ->]].
  destruct fragments as [|f fragments]; [done|]. simpl.
  assert (H : forall l e, combineErrors l (Some e) <> None).
  { induction l as [|g l IH]; intros e; [done|]. simpl. apply IH. }
  intros Hnone. by apply H in Hnone.
Qed.

Lemma failingFragments_nil (self : VM) (c : Ctx) (s : Store.t) :
  failingFragments self c s = [] <->
  receiptTrieMismatch self c = false /\ bloomMismatch c = false /\
  gasUsedMismatch c = false /\ stateRootMismatch c s = false.
Proof.
  unfold failingFragments.
  destruct (receiptTrieMismatch self c), (bloomMismatch c),
    (gasUsedMismatch c), (stateRootMismatch c s); simpl; split;
    try done; intros (? & ? & ? & ?); done.
Qed.

(** X1: in validation mode the result carries no error exactly when the
    commit handed none to its callback and the four commitments agree
    with the header of the block: the gas that the results report sums
    to the declared gas used, the OR of the blooms of the receipts is
    the declared bloom, the root of the store after the flush is the
    declared state root, and the root of the receipt trie, when it has
    one, is the declared receipt root. *)
Theorem X1_validation_verdict (self : VM) (b : Block.t)
    (root : option Buffer) (w : World) (err : option Error)
    (result : BlockResult) :
  snd (runBlock self (ArgsOpts (Opts.mk (Some b) false root)) w)
  = CbResult err result ->
  exists st' : Ctx * World,
    pipeline self false (initCtx b, openCheckpoint (overrideRoot root w))
    = (st', Called None) /\
    (err = None <->
     commitError self (store (snd st')) = None /\
     cumulativeGas (res_results result) = Header.gasUsed (Block.header b) /\
     aggregateBloom (res_receipts result) = Header.bloom (Block.header b) /\
     Store.root (cacheFlush self (store (snd st')))
     = Header.stateRoot (Block.header b) /\
     (forall r, trieRoot self (receiptTrie (fst st')) = Some r ->
                r = Header.receiptTrie (Block.header b))).
Proof.
  intros Hcb.
  destruct (result_inv self false b root w err result Hcb)
    as (st' & Hp & -> & -> & _).
  exists st'. split; [exact Hp|].
  destruct (pipeline_success_inv self false b _ st' Hp)
    as (s1 & w2 & _ & Hloop & _).
  destruct (after_prefix self false b _ _ _ _ Hloop)
    as ((_ & _ & Hgas & _) & (Hagg & _ & Hblk) & _).
  destruct st' as [c w']. cbn [fst snd] in *.
  destruct (commitBlock_facts self false c w')
    as (_ & _ & _ & _ & _ & _ & _ & _ & _ & ->).
  rewrite checkCommitments_combine, combineErrors_None, failingFragments_nil.
  unfold receiptTrieMismatch, bloomMismatch, gasUsedMismatch, stateRootMismatch,
    header.
  cbn [res_results res_receipts].
  rewrite Hblk, <- Hgas, <- Hagg. simpl.
  rewrite !negb_false_iff, !N.eqb_eq.
  assert (Hhex : forall x y : Buffer, hexDiffers x y = false <-> x = y).
  { intros x y. unfold hexDiffers.
    by rewrite negb_false_iff, bool_decide_eq_true. }
  rewrite Hhex.
  split.
  - intros ((Htrie & Hbloom & Hg & Hroot) & Hcommit).
    repeat split; try done.
    intros r Hr. rewrite Hr in Htrie. by apply Hhex.
  - intros (Hcommit & Hg & Hbloom & Hroot & Htrie).
    repeat split; try done.
    destruct (trieRoot self (receiptTrie c)) as [r|]; [|done].
    apply Hhex. by apply Htrie.
Qed.

Lemma X1_validation_verdict_witness :
  exists result,
    snd (runBlock Example2.vmThrifty
           (ArgsOpts (Opts.mk (Some Example2.blockValid) false None))
           Example.world0)
    = CbResult None result /\
    cumulativeGas (res_results result) = 30000%N /\
    aggregateBloom (res_receipts result) = 4%N.
Proof.
  eexists. split; [reflexivity|].
  destruct (X1_validation_verdict Example2.vmThrifty Example2.blockValid None
              Example.world0 None _ eq_refl) as (st' & _ & Hiff).
  destruct (proj1 Hiff eq_refl) as (_ & Hgas & Hbloom & _).
  split; [exact Hgas | exact Hbloom].
Defined.

(** X2: in generate mode nothing is checked against the header: the
    error of the result is the one the commit handed to its callback,
    whatever the header declares.  The state root left in the header is
    the root the store had when the pipeline ended, before the commit
    and the flush of the cache, and the bloom left in the header is the
    OR of the blooms of the receipts, unless the block has no
    transaction, in which case the bloom is not written. *)
Theorem X2_generate_stamps_header (self : VM) (b : Block.t)
    (root : option Buffer) (w : World) (err : option Error)
    (result : BlockResult) :
  let run := runBlock self (ArgsOpts (Opts.mk (Some b) true root)) w in
  snd run = CbResult err result ->
  exists (st' : Ctx * World) (c : Ctx),
    pipeline self true (initCtx b, openCheckpoint (overrideRoot root w))
    = (st', Called None) /\
    fst (fst run) = Some c /\
    err = commitError self (store (snd st')) /\
    Header.stateRoot (header c) = Store.root (store (snd st')) /\
    Header.bloom (header c)
    = match Block.transactions b with
      | [] => Header.bloom (Block.header b)
      | _ :: _ => aggregateBloom (res_receipts result)
      end.
Proof.
  intros run Hcb. subst run.
  destruct (result_inv self true b root w err result Hcb)
    as (st' & Hp & -> & -> & Hc & _).
  exists st', (fst (fst (commitBlock self true st'))).
  split; [exact Hp|]. split; [exact Hc|].
  destruct (pipeline_success_inv self true b _ st' Hp)
    as (s1 & w2 & _ & Hloop & _).
  destruct (after_prefix self true b _ _ _ _ Hloop)
    as ((_ & _ & _ & _ & _ & Hcnt & _) & (Hagg & _ & Hblk) & _).
  destruct st' as [c w']. cbn [fst snd] in *.
  destruct (commitBlock_facts self true c w')
    as (_ & _ & _ & _ & _ & _ & Hblk' & _ & _ & ->).
  split; [done|]. unfold header. rewrite Hblk'. simpl. split; [done|].
  unfold header. rewrite Hblk, Hcnt, <- Hagg. simpl.
  by destruct (Block.transactions b).
Qed.

Lemma X2_generate_stamps_header_witness :
  exists c,
    fst (fst (runBlock Example.vm
                (ArgsOpts (Opts.mk (Some Example.blockOk) true None))
                Example.world0)) = Some c /\
    Header.stateRoot Example.hdr = [x02; x01] /\
    Header.stateRoot (header c) = [x02; x01; x01] /\
    Header.bloom (header c) = 3%N.
Proof.
  destruct (X2_generate_stamps_header Example.vm Example.blockOk None
              Example.world0 None _ eq_refl)
    as (st' & c & Hp & Hc & _ & Hroot & Hbloom).
  exists c. split; [exact Hc|]. split; [reflexivity|].
  vm_compute in Hp. injection Hp as <-.
  split; [exact Hroot | exact Hbloom].
Defined.

(** ** The amounts and the reach of the rewards *)

Lemma eighth_facts (R : Z) : (0 <= R -> 0 <= R ÷ 8 /\ 8 * (R ÷ 8) <= R)%Z.
Proof.
  intros HR. rewrite Z.quot_div_nonneg by lia.
  pose proof (Z.div_mod R 8). pose proof (Z.mod_pos_bound R 8).
  pose proof (Z.div_pos R 8). lia.
Qed.

(** X12: with a miner reward that is not negative, the reward of an
    ommer whose number is not above the number of the block lies
    between 0 and the miner reward, an ommer that is closer to the
    block gets at least as much as one that is further, an ommer 8 or
    more below the block gets nothing, and the miner never gets less
    than the miner reward. *)
Theorem X12_reward_bounds (self : VM) (n m m' : N) (ommers : list Header.t) :
  (0 <= minerReward self)%Z ->
  (m <= m')%N -> (m' <= n)%N ->
  (0 <= ommerReward self n m)%Z /\
  (ommerReward self n m <= ommerReward self n m')%Z /\
  (ommerReward self n m' <= minerReward self)%Z /\
  ((8 <= Z.of_N n - Z.of_N m)%Z -> ommerReward self n m = 0%Z) /\
  (minerReward self <= minerTotalReward self ommers)%Z.
Proof.
  intros HR Hm Hm'. rewrite !ommerReward_max.
  destruct (eighth_facts (minerReward self) HR) as [Hq Hq8].
  unfold minerTotalReward.
  assert (Hq32 : (0 <= minerReward self ÷ 32)%Z).
  { rewrite Z.quot_div_nonneg by lia. apply Z.div_pos; lia. }
  set (q := (minerReward self ÷ 8)%Z) in *.
  repeat split; try nia.
Qed.

Lemma X12_reward_bounds_witness :
  (ommerReward Example.vm 10 3 <= ommerReward Example.vm 10 9)%Z /\
  (ommerReward Example.vm 10 9 <= 5000000000000000000)%Z /\
  ommerReward Example.vm 10 2 = 0%Z.
Proof.
  destruct (X12_reward_bounds Example.vm 10 3 9 [])
    as (_ & Hmono & Hmax & _); [done|done|done|].
  destruct (X12_reward_bounds Example.vm 10 2 2 [])
    as (_ & _ & _ & Hzero & _); [done|done|done|].
  split; [exact Hmono|]. split; [exact Hmax | by apply Hzero].
Defined.

(** X13: the reward of an ommer is bounded from below only: for an
    ommer header whose number is not below the number of the block the
    reward is (8 + excess) eighths of the miner reward, which is more
    than the whole miner reward as soon as the ommer is above the block
    and the miner reward is at least 64. *)
Theorem X13_reward_not_capped (self : VM) (n m : N) :
  (0 <= minerReward self)%Z ->
  (n <= m)%N ->
  ommerReward self n m
  = ((8 + (Z.of_N m - Z.of_N n)) * (minerReward self ÷ 8))%Z /\
  ((64 <= minerReward self)%Z -> (n < m)%N ->
   (minerReward self < ommerReward self n m)%Z).
Proof.
  intros HR Hnm. rewrite ommerReward_max.
  destruct (eighth_facts (minerReward self) HR) as [Hq Hq8].
  assert (Hrem : (minerReward self < 8 * (minerReward self ÷ 8) + 8)%Z).
  { rewrite Z.quot_div_nonneg by lia.
    pose proof (Z.div_mod (minerReward self) 8).
    pose proof (Z.mod_pos_bound (minerReward self) 8). lia. }
  set (q := (minerReward self ÷ 8)%Z) in *.
  split; [nia|]. intros H64 Hlt. nia.
Qed.

Lemma X13_reward_not_capped_witness :
  ommerReward Example.vm 10 12 = 6250000000000000000%Z /\
  (minerReward Example.vm < ommerReward Example.vm 10 12)%Z.
Proof.
  destruct (X13_reward_not_capped Example.vm 10 12) as [Heq Hgt];
    [done|done|].
  split; [exact Heq|]. by apply Hgt.
Defined.

Lemma OnlyCredits_refl (targets : list Address) (s : Store.t) :
  OnlyCredits targets s s.
Proof. split; [done|]. intros a. repeat split; lia. Qed.

Lemma OnlyCredits_credit (targets : list Address) (s0 s : Store.t)
    (a : Address) (reward : Z) :
  (0 <= reward)%Z -> In a targets ->
  OnlyCredits targets s0 s ->
  OnlyCredits targets s0
    (Store.set_account s a
       (Account.set_balance (Store.accounts s a)
          (Account.balance (Store.accounts s a) + reward))).
Proof.
  intros Hrew Hin [Hroot Hacc]. split; [done|]. intros a'.
  destruct (Hacc a') as (Hn & Hs & Hc & Hb & Hother). simpl.
  destruct (decide (a = a')) as [<-|Hne].
  - rewrite fn_lookup_insert. simpl. repeat split; try done; lia.
  - rewrite fn_lookup_insert_ne by done. done.
Qed.

(** X15: with a miner reward that is not negative, crediting the
    rewards only raises balances of the coinbase of the block and of
    the coinbases of its ommers, however it ends, also when the store
    fails half way: the root pointer of the store, the nonce, storage
    root and code hash of every account and the whole account of every
    other address are left as they were, and no balance goes down. *)
Theorem X15_rewards_only_credit (self : VM) (c : Ctx) (w : World) :
  (0 <= minerReward self)%Z ->
  OnlyCredits (coinbases (block c)) (store w)
    (store (snd (fst (payOmmersAndMiner self (c, w))))).
Proof.
  intros HR.
  set (targets := coinbases (block c)).
  set (P := fun st : Ctx * World =>
              fst st = c /\ OnlyCredits targets (store w) (store (snd st))).
  assert (Hstep : forall a reward st,
             (0 <= reward)%Z -> In a targets -> P st ->
             P (fst (rewardAccount self a reward st))).
  { intros a reward [c' w'] Hrew Hin [Hc Hs]. cbn [fst snd] in Hc, Hs. subst c'.
    unfold rewardAccount.
    destruct (getAccountError self a (store w')); [by split|].
    destruct (putAccountError self a _ (store w')); [by split|].
    split; [done|]. by apply OnlyCredits_credit. }
  assert (HP : P (fst (payOmmersAndMiner self (c, w)))).
  { unfold payOmmersAndMiner, series.
    apply eachSeries_preserves; [|split; [done|apply OnlyCredits_refl]].
    apply Forall_cons_2; [|apply Forall_cons_2; [|apply Forall_nil_2]];
      intros st' H'.
    - unfold rewardOmmers, each. apply eachSeries_preserves; [|done].
      apply Forall_forall. intros ommer Hommer st'' H''.
      apply Hstep; [|right|done].
      + rewrite ommerReward_max. lia.
      + destruct H' as [Hc' _]. rewrite Hc' in Hommer.
        apply in_map. exact Hommer.
    - unfold rewardMiner. apply Hstep; [|left|done].
      + assert (Hpos : (0 <= minerReward self ÷ 32)%Z).
        { rewrite Z.quot_div_nonneg by lia. apply Z.div_pos; lia. }
        unfold minerTotalReward.
        apply Z.add_nonneg_nonneg; [done|].
        apply Z.mul_nonneg_nonneg; [exact Hpos | lia].
      + destruct H' as [Hc' _]. by rewrite Hc'. }
  exact (proj2 HP).
Qed.

Lemma X15_rewards_only_credit_witness :
  let paid := payOmmersAndMiner Example2.vmBrokenStore
                (initCtx Example.blockOk, Example.world0) in
  snd paid = Called (Some Example.boom) /\
  balanceOf (snd (fst paid)) Example.uncleMiner = 4375000000000000000%Z /\
  Store.root (store (snd (fst paid))) = [x01] /\
  Store.accounts (store (snd (fst paid))) [xcc] = Example.blankAccount.
Proof.
  destruct (X15_rewards_only_credit Example2.vmBrokenStore
              (initCtx Example.blockOk) Example.world0) as [Hroot Hacc];
    [done|].
  split; [reflexivity|]. split; [reflexivity|]. split; [exact Hroot|].
  apply (Hacc [xcc]). simpl. intros [H|[H|[]]]; discriminate.
Defined.

(** ** The gas bytes *)

Lemma fromBigEndian_bound (l : Buffer) :
  (fromBigEndian l < 256 ^ N.of_nat (length l))%N.
Proof.
  induction l as [|d l IH] using rev_ind; [reflexivity|].
  unfold fromBigEndian in *. rewrite fold_left_app, length_app. simpl.
  replace (N.of_nat (length l + 1)) with (N.succ (N.of_nat (length l))) by lia.
  rewrite N.pow_succ_r'. pose proof (Byte.to_N_bounded d). lia.
Qed.

Lemma beDigits_length (steps : nat) : forall (q : N) (acc : Buffer),
  (256 ^ N.of_nat steps <= q)%N ->
  length (beDigits (Datatypes.S steps) q acc) = Datatypes.S steps + length acc.
Proof.
  induction steps as [|steps IH]; intros q acc Hq.
  - simpl in *. destruct (N.eqb_spec q 0); [lia|done].
  - replace (N.of_nat (Datatypes.S steps)) with (N.succ (N.of_nat steps)) in Hq by lia.
    rewrite N.pow_succ_r' in Hq.
    assert (Hpos : (0 < 256 ^ N.of_nat steps)%N)
      by (apply N.neq_0_lt_0, N.pow_nonzero; lia).
    change (beDigits (Datatypes.S (Datatypes.S steps)) q acc)
      with (if (q =? 0)%N then acc
            else beDigits (Datatypes.S steps) (N.shiftr q 8)
                   (byteOfN (N.land q 255) :: acc)).
    destruct (N.eqb_spec q 0); [lia|].
    rewrite IH; [simpl; lia|].
    rewrite N.shiftr_div_pow2. change (2 ^ 8)%N with 256%N.
    apply N.div_le_lower_bound; lia.
Qed.

Lemma byteLength_lower (n : N) :
  n <> 0%N ->
  exists k : nat, byteLength n = Datatypes.S k /\ (256 ^ N.of_nat k <= n)%N.
Proof.
  intros Hn. unfold byteLength.
  rewrite (N.size_log2 n Hn).
  pose proof (N.log2_spec n ltac:(lia)) as [Hlow _].
  set (L := N.log2 n) in *.
  exists (N.to_nat (L / 8)). split.
  - replace (N.succ L + 7)%N with (L / 8 * 8 + (L mod 8 + 8))%N.
    + rewrite N.div_add_l by lia.
      pose proof (N.mod_lt L 8 ltac:(lia)).
      replace ((L mod 8 + 8) / 8)%N with 1%N; [lia|].
      apply N.div_unique with (r := (L mod 8)%N); lia.
    + pose proof (N.div_mod L 8 ltac:(lia)). lia.
  - rewrite N2Nat.id. change 256%N with (2 ^ 8)%N. rewrite <- N.pow_mul_r.
    etrans; [|exact Hlow]. apply N.pow_le_mono_r; [lia|].
    apply N.Div0.mul_div_le.
Qed.

(** X17: the gas bytes of a receipt are the canonical big-endian bytes
    of the number: they spell it back, two numbers have the same bytes
    only when they are equal, there are as many bytes as the number
    needs and at least one, and the first byte is zero only for the
    number zero, whose bytes are the single byte zero. *)
Theorem X17_gas_bytes_canonical (n m : N) :
  fromBigEndian (toArrayLike n) = n /\
  (toArrayLike n = toArrayLike m -> n = m) /\
  length (toArrayLike n) = Nat.max 1 (byteLength n) /\
  toArrayLike 0 = [x00] /\
  (n <> 0%N -> head (toArrayLike n) <> Some x00).
Proof.
  split; [apply fromBigEndian_toArrayLike|].
  split.
  { intros Heq. rewrite <- (fromBigEndian_toArrayLike n), Heq.
    apply fromBigEndian_toArrayLike. }
  assert (Hlen : length (toArrayLike n) = Nat.max 1 (byteLength n)).
  { destruct (N.eq_dec n 0%N) as [->|Hn]; [reflexivity|].
    destruct (byteLength_lower n Hn) as (k & Hk & Hlow).
    unfold toArrayLike. rewrite Hk, length_app, length_replicate.
    rewrite beDigits_length by done. simpl. lia. }
  split; [exact Hlen|]. split; [reflexivity|].
  intros Hn Hhead.
  destruct (byteLength_lower n Hn) as (k & Hk & Hlow).
  rewrite Hk in Hlen.
  pose proof (fromBigEndian_toArrayLike n) as Hval.
  destruct (toArrayLike n) as [|d l]; [done|].
  injection Hhead as ->. simpl in Hlen.
  rewrite fromBigEndian_cons in Hval. simpl in Hval.
  pose proof (fromBigEndian_bound l) as Hb.
  assert (length l = k) as Hl by lia. rewrite Hl in Hb. lia.
Qed.

Lemma X17_gas_bytes_canonical_witness :
  length (toArrayLike 42000) = 2 /\ head (toArrayLike 42000) <> Some x00.
Proof.
  destruct (X17_gas_bytes_canonical 42000 0) as (_ & _ & Hlen & _ & Hhead).
  split; [exact Hlen|]. apply Hhead. discriminate.
Defined.

(** ** Accumulating in another order *)

Lemma lor_fold_permutation (xs ys : list N) :
  Permutation xs ys ->
  forall acc : N, fold_left N.lor xs acc = fold_left N.lor ys acc.
Proof.
  induction 1 as [|x xs ys _ IH|x y xs|xs ys zs _ IH1 _ IH2]; intros acc; simpl.
  - done.
  - apply IH.
  - f_equal. rewrite <- !N.lor_assoc. f_equal. apply N.lor_comm.
  - by rewrite IH1.
Qed.

Lemma add_fold_permutation (xs ys : list N) :
  Permutation xs ys ->
  forall acc : N, fold_left N.add xs acc = fold_left N.add ys acc.
Proof.
  induction 1 as [|x xs ys _ IH|x y xs|xs ys zs _ IH1 _ IH2]; intros acc; simpl.
  - done.
  - apply IH.
  - f_equal. lia.
  - by rewrite IH1.
Qed.

Lemma Bloom_eq (x y : Bloom.t) :
  Bloom.bitvector x = Bloom.bitvector y -> x = y.
Proof. destruct x, y. simpl. by intros ->. Qed.

Lemma absorb_results (self : VM) (generate : bool) (rs : list TxResult.t) :
  forall c : Ctx,
  let c' := fold_left (fun c0 r => fst (parseTxResult self generate (RunTxOk r) c0))
              rs c in
  Bloom.bitvector (bloom c')
  = fold_left N.lor (map (fun r => Bloom.bitvector (TxResult.bloom r)) rs)
      (Bloom.bitvector (bloom c)) /\
  gasUsed c' = fold_left N.add (map TxResult.gasUsed rs) (gasUsed c).
Proof.
  induction rs as [|r rs IH]; intros c; [done|].
  simpl. destruct (IH (fst (parseTxResult self generate (RunTxOk r) c)))
    as [Hb Hg]. split; [exact Hb | exact Hg].
Qed.

(** X18: the aggregate bloom and the cumulative gas do not depend on
    the order in which the results of the executor are taken in: taking
    in the same results in another order leaves the same bloom and the
    same gas, while the receipts, which carry the gas so far, differ. *)
Theorem X18_accumulators_order_independent (self : VM) (generate : bool)
    (rs rs' : list TxResult.t) (c : Ctx) :
  Permutation rs rs' ->
  let absorb := fold_left
                  (fun c0 r => fst (parseTxResult self generate (RunTxOk r) c0)) in
  bloom (absorb rs c) = bloom (absorb rs' c) /\
  gasUsed (absorb rs c) = gasUsed (absorb rs' c).
Proof.
  intros Hperm absorb. subst absorb.
  destruct (absorb_results self generate rs c) as [Hb Hg].
  destruct (absorb_results self generate rs' c) as [Hb' Hg'].
  split.
  - assert (H : Bloom.bitvector (bloom (fold_left
                  (fun c0 r => fst (parseTxResult self generate (RunTxOk r) c0)) rs c))
                = Bloom.bitvector (bloom (fold_left
                  (fun c0 r => fst (parseTxResult self generate (RunTxOk r) c0)) rs' c))).
    { rewrite Hb, Hb'. apply lor_fold_permutation. by apply Permutation_map. }
    by apply Bloom_eq.
  - rewrite Hg, Hg'. apply add_fold_permutation. by apply Permutation_map.
Qed.

Lemma X18_accumulators_order_independent_witness :
  let absorb := fold_left
                  (fun c0 r => fst (parseTxResult Example.vm true (RunTxOk r) c0)) in
  bloom (absorb [Example.okResult x01; Example.okResult x02]
           (initCtx Example.blockOk))
  = bloom (absorb [Example.okResult x02; Example.okResult x01]
             (initCtx Example.blockOk)) /\
  receipts (absorb [Example.okResult x01; Example.okResult x02]
              (initCtx Example.blockOk))
  <> receipts (absorb [Example.okResult x02; Example.okResult x01]
                 (initCtx Example.blockOk)).
Proof.
  split.
  - apply (X18_accumulators_order_independent Example.vm true
             [Example.okResult x01; Example.okResult x02]
             [Example.okResult x02; Example.okResult x01]).
    apply perm_swap.
  - vm_compute. discriminate.
Defined.

(** ** The block without transactions *)

(** X19: for a block without transactions whose callback is given a
    result object, the executor is not invoked, the receipts, the
    results and the receipt trie are empty, the cumulative gas and the
    aggregate bloom are zero, and the bloom of the header is the one
    the block came with, also in generate mode, where only the state
    root is written. *)
Theorem X19_empty_block (self : VM) (generate : bool) (b : Block.t)
    (root : option Buffer) (w : World) (err : option Error)
    (result : BlockResult) :
  let run := runBlock self (ArgsOpts (Opts.mk (Some b) generate root)) w in
  Block.transactions b = [] ->
  snd run = CbResult err result ->
  res_receipts result = [] /\
  res_results result = [] /\
  trace (snd (fst run))
  = trace w ++ rootEvents root
    ++ [EvCheckpoint; EvBeforeBlock b; EvCommit; EvFlush; EvClear;
        EvAfterBlock result; EvCallback (CbResult err result)] /\
  exists c : Ctx,
    fst (fst run) = Some c /\
    gasUsed c = 0%N /\
    Bloom.bitvector (bloom c) = 0%N /\
    receiptTrie c = [] /\
    Header.bloom (header c) = Header.bloom (Block.header b).
Proof.
  intros run Hempty Hcb. subst run.
  pose proof (success_trace self generate b root w err result Hcb) as Htr.
  rewrite Hempty in Htr. simpl in Htr.
  destruct (result_inv self generate b root w err result Hcb)
    as (st' & Hp & _ & -> & Hc & _).
  destruct (pipeline_success_inv self generate b _ st' Hp)
    as (s1 & w2 & _ & Hloop & _).
  rewrite Hempty in Hloop. simpl in Hloop.
  assert (Hinit : fst st' = initCtx b) by congruence.
  destruct st' as [c' w']. cbn [fst snd] in *. subst c'.
  destruct (commitBlock_facts self generate (initCtx b) w')
    as (_ & _ & Hg & Hb & Ht & _ & Hblk & _).
  split; [done|]. split; [done|]. split; [exact Htr|].
  eexists. split; [exact Hc|].
  rewrite Hg, Hb, Ht. unfold header. rewrite Hblk.
  by destruct generate.
Qed.

Lemma X19_empty_block_witness :
  exists c,
    fst (fst (runBlock Example.vm
                (ArgsOpts (Opts.mk (Some (Block.mk Example.hdr [] [])) true None))
                Example.world0)) = Some c /\
    Bloom.bitvector (bloom c) = 0%N /\
    Header.bloom (header c) = 3%N.
Proof.
  destruct (X19_empty_block Example.vm true (Block.mk Example.hdr [] []) None
              Example.world0 None _ eq_refl eq_refl)
    as (_ & _ & _ & c & Hc & _ & Hb & _ & Hh).
  exists c. split; [exact Hc|]. split; [exact Hb | exact Hh].
Defined.
